(** * node-uci-protocol: the parser core, the UCI grammar, the protocol
      dispatcher and the proxy handler, embedded from the TypeScript sources.

    Strings are [string] (one [ascii] per character of the source string),
    [E.Either] is fp-ts's [Either], and a [P.Parser] is the source's
    [(x: string) => Either<ParseError, [T, string]>]. *)

From Stdlib Require Import String Ascii List Bool Arith ZArith QArith Lia.
From Stdlib Require Import Qround Qabs Qreduction Qpower.
From Stdlib Require Import DecimalString.
Import ListNotations.

Local Close Scope Q_scope.
Local Open Scope list_scope.
Local Open Scope nat_scope.
Local Open Scope string_scope.

(* ================================================================== *)
(** * fp-ts [Either] *)
(* ================================================================== *)

Module E.

Inductive Either (L R : Type) : Type :=
| Left (e : L)
| Right (a : R).

Arguments Left {L R} e.
Arguments Right {L R} a.

Definition isLeft {L R} (ma : Either L R) : bool :=
  match ma with Left _ => true | Right _ => false end.

Definition isRight {L R} (ma : Either L R) : bool :=
  match ma with Left _ => false | Right _ => true end.

Definition map {L A B} (f : A -> B) (ma : Either L A) : Either L B :=
  match ma with Left e => Left e | Right a => Right (f a) end.

Definition mapLeft {L M A} (f : L -> M) (ma : Either L A) : Either M A :=
  match ma with Left e => Left (f e) | Right a => Right a end.

Definition chain {L A B} (f : A -> Either L B) (ma : Either L A) : Either L B :=
  match ma with Left e => Left e | Right a => f a end.

(** [E.alt(that)(fa)]: [fa] when it is a [Right], otherwise [that()]. *)
Definition alt {L A} (that : unit -> Either L A) (fa : Either L A) : Either L A :=
  match fa with Left _ => that tt | Right _ => fa end.

End E.

(* ================================================================== *)
(** * JavaScript string and array helpers *)
(* ================================================================== *)

Definition LF : ascii := ascii_of_nat 10.
Definition CR : ascii := ascii_of_nat 13.
Definition TAB : ascii := ascii_of_nat 9.
Definition DQUOTE : ascii := ascii_of_nat 34.

(** A one-character string, as [x[0]] yields. *)
Definition chr (c : ascii) : string := String c EmptyString.

(** [x.slice(n)]. *)
Fixpoint slice (n : nat) (x : string) : string :=
  match n, x with
  | O, _ => x
  | S _, EmptyString => EmptyString
  | S n', String _ rest => slice n' rest
  end.

(** [x.startsWith(s)]. *)
Definition startsWith (x s : string) : bool := String.prefix s x.

(** [set.includes(c)] for a one-character [c]. *)
Fixpoint includes (set : string) (c : ascii) : bool :=
  match set with
  | EmptyString => false
  | String d rest => Ascii.eqb c d || includes rest c
  end.

(** [xs.join(sep)]. *)
Fixpoint join (sep : string) (xs : list string) : string :=
  match xs with
  | [] => ""
  | [x] => x
  | x :: rest => x ++ sep ++ join sep rest
  end.

(** [xs.reduceRight(f, init)]: the callback receives the accumulator first
    and the current element second, elements visited from the last one. *)
Fixpoint reduceRight {A B : Type} (f : B -> A -> B) (xs : list A) (init : B) : B :=
  match xs with
  | [] => init
  | x :: rest => f (reduceRight f rest init) x
  end.

(* ================================================================== *)
(** * Parser core: lib/Parser/Parser.ts, Combinator.ts, String.ts *)
(* ================================================================== *)

Module P.

Definition ParseError := string.
Definition Parser (T : Type) : Type := string -> E.Either ParseError (T * string).

(** ** Parser.ts *)

Definition _of {A} (a : A) : Parser A := fun x => E.Right (a, x).

Definition _map {A B} (fa : Parser A) (f : A -> B) : Parser B :=
  fun x => E.map (fun '(v1, v2) => (f v1, v2)) (fa x).

Definition _chain {A B} (fa : Parser A) (f : A -> Parser B) : Parser B :=
  fun x => E.chain (fun '(a, rest) => f a rest) (fa x).

Definition _ap {A B} (fab : Parser (A -> B)) (fa : Parser A) : Parser B :=
  fun x =>
    E.chain (fun '(f, rest1) =>
      E.chain (fun '(a, rest2) => E.Right (f a, rest2)) (fa rest1)) (fab x).

Definition _alt {A} (fa : Parser A) (that : unit -> Parser A) : Parser A :=
  fun x => E.alt (fun _ => that tt x) (fa x).

Definition _zero {A} : Parser A := fun _ => E.Left "zero".

Definition liftA2 {A B C} (f : A -> B -> C) (pa : Parser A) (pb : Parser B)
  : Parser C := _ap (_map pa f) pb.

(** What the embedding answers where the source would not return: a loop
    or a recursion that makes no progress. *)
Definition noProgress : ParseError := "<no progress>".

(** The [while] loop of [many]: [as_], [rest] and [e] are the loop's three
    variables.  Each turn that is taken has [rest] non-empty; [fuel] bounds
    the number of turns. *)
Fixpoint many_loop {A} (fuel : nat) (p : Parser A) (as_ : list A)
    (rest : string) (e : E.Either ParseError (A * string))
  : E.Either ParseError (list A * string) :=
  match e with
  | E.Left _ => E.Right (as_, rest)
  | E.Right (a, next) =>
      if (0 <? String.length rest)%nat then
        match fuel with
        | O => E.Left noProgress
        | S fuel' => many_loop fuel' p (as_ ++ [a])%list next (p next)
        end
      else E.Right (as_, rest)
  end.

(** [many]: a parser that consumes on success takes at most
    [x.length] turns. *)
Definition many {A} (p : Parser A) : Parser (list A) :=
  fun x => many_loop (String.length x) p [] x (p x).

Definition execParser {A} (p : Parser A) (x : string) := p x.

Definition zero {A} := @_zero A.

(** Sequencing as fp-ts-contrib's [Do] builder chains it. *)
Notation "x <- p ;; k" := (_chain p (fun x => k))
  (at level 61, p at next level, right associativity).
Notation "p ;;; k" := (_chain p (fun _ => k))
  (at level 61, right associativity).

(** ** Combinator.ts *)

Definition many1 {A} (p : Parser A) : Parser (list A) :=
  fun x =>
    E.chain (fun '(h, rest) =>
      E.chain (fun '(t, rest') => E.Right (h :: t, rest')) (many p rest)) (p x).

Definition choice {A} (ps : list (Parser A)) : Parser A :=
  reduceRight (fun a b => _alt a (fun _ => b)) ps _zero.

Definition sepBy1 {A B} (p : Parser A) (sep : Parser B) : Parser (list A) :=
  x <- p ;;
  xs <- many (_chain sep (fun _ => p)) ;;
  _of (x :: xs).

Definition sepBy {A B} (p : Parser A) (sep : Parser B) : Parser (list A) :=
  _alt (sepBy1 p sep) (fun _ => _of []).

Definition optional {A} (p : Parser A) : Parser unit :=
  p ;;; _of tt.

Definition flat (p : Parser (list string)) : Parser string :=
  _map p (join "").

Definition between {L A R} (pl : Parser L) (p : Parser A) (pr : Parser R)
  : Parser A :=
  pl ;;; x <- p ;; pr ;;; _of x.

(** [manyTill]'s [scan], unfolded [fuel] times. *)
Fixpoint scan {A B} (fuel : nat) (endp : Parser B) (p : Parser A)
  : Parser (list A) :=
  match fuel with
  | O => fun _ => E.Left noProgress
  | S fuel' =>
      _alt (endp ;;; _of [])
           (fun _ => x <- p ;; xs <- scan fuel' endp p ;; _of (x :: xs))
  end.

(** [manyTill(end)(p)]: with a [p] that consumes, [scan] is entered at most
    [x.length + 1] times. *)
Definition manyTill {A B} (endp : Parser B) (p : Parser A) : Parser (list A) :=
  fun x => scan (S (String.length x)) endp p x.

Definition lookahead {A} (p : Parser A) : Parser A :=
  fun s => E.map (fun '(a, _) => (a, s)) (p s).

(** [chainl1]'s [rest], unfolded [fuel] times. *)
Fixpoint chainl1_rest {A} (fuel : nat) (p : Parser A)
    (op : Parser (A -> A -> A)) (x : A) : Parser A :=
  match fuel with
  | O => fun _ => E.Left noProgress
  | S fuel' =>
      _alt (_chain (f <- op ;; y <- p ;; _of (f x y))
                   (chainl1_rest fuel' p op))
           (fun _ => _of x)
  end.

(** [chainl1(p, op)]: with an operator or an operand that consumes,
    [rest] is entered at most [s.length + 1] times. *)
Definition chainl1 {A} (p : Parser A) (op : Parser (A -> A -> A))
  : Parser A :=
  fun s => _chain p (chainl1_rest (S (String.length s)) p op) s.

Definition chainl {A} (p : Parser A) (op : Parser (A -> A -> A)) (x : A)
  : Parser A :=
  _alt (chainl1 p op) (fun _ => _of x).

Definition expected {A} (msg : string) (p : Parser A) : Parser A :=
  fun x => E.mapLeft (fun err => "Expected " ++ msg ++ " but: " ++ err) (p x).

(** ** String.ts *)

Definition satisfy (desc : string) (pred : ascii -> bool) : Parser string :=
  fun x =>
    match x with
    | EmptyString => E.Left ("Expected " ++ desc ++ " but got EOF")
    | String c rest =>
        if pred c then E.Right (chr c, rest)
        else E.Left ("Expected " ++ desc ++ ", but got '" ++ chr c ++ "'")
    end.

Definition oneOf (set : string) : Parser string :=
  satisfy ("one of " ++ chr DQUOTE ++ set ++ chr DQUOTE)
          (fun x => includes set x).

Definition noneOf (set : string) : Parser string :=
  satisfy ("none of " ++ chr DQUOTE ++ set ++ chr DQUOTE)
          (fun x => negb (includes set x)).

Definition char (ch : ascii) : Parser string :=
  satisfy ("character '" ++ chr ch ++ "'") (fun x => Ascii.eqb x ch).

Definition anyChar : Parser string := satisfy "anything" (fun _ => true).

Definition str (s : string) : Parser string :=
  fun x =>
    if startsWith x s then E.Right (s, slice (String.length s) x)
    else E.Left ("Expected " ++ chr DQUOTE ++ s ++ chr DQUOTE).

Definition whitespace : Parser string :=
  oneOf (String LF (String TAB (String CR " "))).
Definition whitespaces : Parser string := flat (many whitespace).
Definition newline : Parser string :=
  choice [char LF; str (String CR (String LF ""))].
Definition eof : Parser string :=
  fun s =>
    match s with
    | EmptyString => E.Right ("", s)
    | _ => E.Left "Expected EOF"
    end.

Definition digit : Parser string := oneOf "0123456789".

(** [option] comes last: inside this module it hides the type of the
    same name. *)
Definition option {A} (a : A) (p : Parser A) : Parser A :=
  _alt p (fun _ => _of a).

End P.


(* ================================================================== *)
(** * JavaScript numbers *)
(* ================================================================== *)

(** A [number] is an IEEE 754 double: a finite value, which is a dyadic
    rational and is kept in lowest terms, an infinity, or NaN.  The sign
    of zero is not kept: in this program a negative zero arises only from
    [-int] in [int], whose one use is to be printed by [floating], and
    [`${-0}`] is "0" as [`${0}`] is. *)
Inductive number : Type :=
| Num (q : Q)
| Infinity (negative : bool)
| NaN.

Definition ofInt (z : Z) : number := Num (inject_Z z).

(** Unary minus. *)
Definition neg (n : number) : number :=
  match n with
  | Num q => Num (- q)%Q
  | Infinity negative => Infinity (negb negative)
  | NaN => NaN
  end.

(** [floor (log2 x)] for a positive [x]. *)
Definition binaryExponent (x : Q) : Z :=
  let e := (Z.log2 (Qnum x) - Z.log2 (Zpos (Qden x)))%Z in
  if Qle_bool (2 ^ e)%Q x then e else (e - 1)%Z.

(** The integer nearest to [x], the even one of two equally near. *)
Definition roundHalfEven (x : Q) : Z :=
  let f := Qfloor x in
  match (x - inject_Z f ?= 1 # 2)%Q with
  | Lt => f
  | Gt => (f + 1)%Z
  | Eq => if Z.even f then f else (f + 1)%Z
  end.

(** The double nearest to the real [x] (round to nearest, ties to even):
    53 significant bits, exponents from -1022 (below that the spacing of
    the subnormals, [2^-1074]), and an infinity from [2^1024] on. *)
Definition roundDouble (x : Q) : number :=
  if Qeq_bool x 0 then Num 0
  else
    let a := Qabs x in
    let e := Z.max (binaryExponent a) (-1022) in
    let ulp := (2 ^ (e - 52))%Q in
    let v := (inject_Z (roundHalfEven (a / ulp)) * ulp)%Q in
    let negative := Qle_bool x 0 in
    if Qle_bool (2 ^ 1024)%Q v then Infinity negative
    else Num (Qred (if negative then - v else v)%Q).

Definition isDigit (c : ascii) : bool := includes "0123456789" c.

Definition digitValue (c : ascii) : Z := Z.of_nat (nat_of_ascii c) - 48.

(** The value of a run of decimal digits read from the left, starting
    from [acc]. *)
Fixpoint digitsValue (acc : Z) (x : string) : Z :=
  match x with
  | EmptyString => acc
  | String c rest => digitsValue (10 * acc + digitValue c) rest
  end.

(** Unary [+x], on the digit runs [natural] applies it to: the double
    nearest to the decimal value of the run. *)
Definition toNumber (x : string) : number :=
  roundDouble (inject_Z (digitsValue 0 x)).

(** The decimal digits of an integer. *)
Definition decimal (z : Z) : string := NilZero.string_of_int (Z.to_int z).

Definition digitCount (z : Z) : Z := Z.of_nat (String.length (decimal z)).

(** The [n] with [10^(n-1) <= x < 10^n], for a positive [x]. *)
Definition decimalExponent (x : Q) : Z :=
  if Qle_bool 1 x then digitCount (Qfloor x)
  else (1 - digitCount (Qceiling (/ x) - 1))%Z.

(** Whether the decimal [v] reads back as the double [x]. *)
Definition roundsTo (v x : Q) : bool :=
  match roundDouble v with
  | Num q => Qeq_bool q x
  | _ => false
  end.

(** The decimal of [k] significant digits that reads back as [x], the
    nearest to [x] if there are two; none if there is none. *)
Definition withDigits (x : Q) (k : Z) : option Q :=
  let unit := (10 ^ (decimalExponent x - k))%Q in
  let s := Qfloor (x / unit) in
  let lo := (inject_Z s * unit)%Q in
  let hi := (lo + unit)%Q in
  match roundsTo lo x, roundsTo hi x with
  | true, true =>
      match (x - lo ?= hi - x)%Q with
      | Lt => Some lo
      | Gt => Some hi
      | Eq => if Z.even s then Some lo else Some hi
      end
  | true, false => Some lo
  | false, true => Some hi
  | false, false => None
  end.

(** The decimal with the fewest significant digits, [k] or more, that
    reads back as [x].  Seventeen digits are enough for every double. *)
Fixpoint shortest (x : Q) (k : Z) (fuel : nat) : Q :=
  match fuel with
  | O => x
  | S fuel' =>
      match withDigits x k with
      | Some v => v
      | None => shortest x (k + 1) fuel'
      end
  end.

Fixpoint zeros (n : nat) : string :=
  match n with
  | O => EmptyString
  | S n' => String "0" (zeros n')
  end.

(** A digit run without its trailing zeros. *)
Fixpoint significant (x : string) : string :=
  match x with
  | EmptyString => EmptyString
  | String c rest =>
      match significant rest with
      | EmptyString =>
          if Ascii.eqb c "0" then EmptyString else String c EmptyString
      | r => String c r
      end
  end.

Fixpoint take (n : nat) (x : string) : string :=
  match n, x with
  | S n', String c r => String c (take n' r)
  | _, _ => EmptyString
  end.

(** A positive decimal [v] of at most seventeen significant digits, laid
    out as [Number::toString] does: plain digits while [v < 10^21], a
    leading "0." down to [10^-6], exponent notation beyond. *)
Definition printDecimal (v : Q) : string :=
  let n := decimalExponent v in
  let digits := significant (decimal (Qfloor (v * 10 ^ (17 - n))%Q)) in
  let k := Z.of_nat (String.length digits) in
  if ((-5 <=? n) && (n <=? 21))%Z then
    if (k <=? n)%Z then digits ++ zeros (Z.to_nat (n - k))
    else if (0 <? n)%Z then
      take (Z.to_nat n) digits ++ "." ++ slice (Z.to_nat n) digits
    else "0." ++ zeros (Z.to_nat (- n)) ++ digits
  else
    let e := (n - 1)%Z in
    let exponent := (if (0 <=? e)%Z then "+" else "-") ++ decimal (Z.abs e) in
    match digits with
    | String d EmptyString => String d ("e" ++ exponent)
    | String d rest => String d ("." ++ rest ++ "e" ++ exponent)
    | EmptyString => EmptyString
    end.

(** [`${n}`]: the shortest decimal that reads back as [n]. *)
Definition numToString (n : number) : string :=
  match n with
  | NaN => "NaN"
  | Infinity negative => if negative then "-Infinity" else "Infinity"
  | Num q =>
      if Qeq_bool q 0 then "0"
      else (if Qle_bool q 0 then "-" else "")
           ++ printDecimal (shortest (Qabs q) 1 17)
  end.

(** The longest prefix of [x] made of digits, and what follows it. *)
Fixpoint spanDigits (x : string) : string * string :=
  match x with
  | EmptyString => (EmptyString, EmptyString)
  | String c rest =>
      if isDigit c then let '(ds, r) := spanDigits rest in (String c ds, r)
      else (EmptyString, x)
  end.

(** The white space [parseFloat] skips, among the characters a [string]
    holds: TAB, LF, VT, FF, CR, space and the no-break space. *)
Definition isStrWhiteSpace (c : ascii) : bool :=
  existsb (Nat.eqb (nat_of_ascii c)) [9; 10; 11; 12; 13; 32; 160].

Fixpoint trimStart (x : string) : string :=
  match x with
  | String c rest => if isStrWhiteSpace c then trimStart rest else x
  | EmptyString => x
  end.

(** An optional sign and what follows it. *)
Definition signed (x : string) : bool * string :=
  match x with
  | String "-" r => (true, r)
  | String "+" r => (false, r)
  | _ => (false, x)
  end.

(** The value of an exponent part at the head of [x]: ['e'] or ['E'], an
    optional sign and at least one digit; [0] where there is none. *)
Definition exponentPart (x : string) : Z :=
  match x with
  | String c r =>
      if includes "eE" c then
        let '(negative, r') := signed r in
        match fst (spanDigits r') with
        | EmptyString => 0%Z
        | ds => if negative then (- digitsValue 0 ds)%Z else digitsValue 0 ds
        end
      else 0%Z
  | EmptyString => 0%Z
  end.

(** [parseFloat(x)]: leading white space is skipped; then the longest
    prefix that is a decimal literal is read (an optional sign, then
    "Infinity", or digits with an optional ['.'] and digits and an
    optional exponent part) and rounded to a double; what follows is
    ignored, and a text with no such prefix is [NaN]. *)
Definition parseFloat (x : string) : number :=
  let '(negative, body) := signed (trimStart x) in
  if startsWith body "Infinity" then Infinity negative
  else
    let '(ip, r1) := spanDigits body in
    let '(fp, r2) :=
      match r1 with
      | String "." r => spanDigits r
      | _ => (EmptyString, r1)
      end in
    match ip, fp with
    | EmptyString, EmptyString => NaN
    | _, _ =>
        let mantissa := inject_Z (digitsValue 0 (ip ++ fp)) in
        let scale := (exponentPart r2 - Z.of_nat (String.length fp))%Z in
        let q := (mantissa * 10 ^ scale)%Q in
        roundDouble (if negative then - q else q)%Q
    end.

(* ================================================================== *)
(** * lib/UCI/Types.ts *)
(* ================================================================== *)

(** Each tagged union is a module of its own, so that the tags keep the
    names they have in the source ([Depth] of a go parameter and [Depth]
    of an info field, [Name] of an id and [Name] of a register payload). *)

Module UCIRegister.
Inductive t : Type :=
| Later
| Name (name : string)
| Code (code : string).
End UCIRegister.

Module UCIPosition.
Inductive t : Type :=
| FEN (fen : string)
| StartPos.
End UCIPosition.

Module UCIScore.
Inductive t : Type :=
| Centipawns (n : number)
| Mate (n : number)
| Lowerbound
| Upperbound.
End UCIScore.

Module UCIInfo.
Inductive t : Type :=
| Depth (depth : number)
| SelDepth (depth : number)
| Time (time : number)
| Nodes (nodes : number)
| Preview (moves : list string)
| MultiPreview (n : number)
| Score (params : list UCIScore.t)
| CurrMove (move : string)
| CurrMoveNumber (n : number)
| HashFull (n : number)
| NodesPerSecond (n : number)
| TableBaseHits (n : number)
| ShredderBaseHits (n : number)
| CPULoad (n : number)
| String_ (s : string)
| Refutation (moves : list string)
| CurrLine (cpunr : number) (moves : list string).
End UCIInfo.

Module UCIGoParameter.
Inductive t : Type :=
| SearchMoves (moves : list string)
| Ponder
| WTime (time : number)
| BTime (time : number)
| WInc (time : number)
| BInc (time : number)
| MovesToGo (n : number)
| Depth (depth : number)
| Nodes (nodes : number)
| Mate (n : number)
| MoveTime (time : number)
| Infinite.
End UCIGoParameter.

Module UCIEngineCommand.
Inductive t : Type :=
| UCI
| Debug (on : option bool)
| IsReady
| SetOption (name : string) (value : option string)
| Register (register : UCIRegister.t)
| UCINewGame
| Position (position : UCIPosition.t) (moves : list string)
| Go (params : list UCIGoParameter.t)
| Stop
| Ponderhit
| Quit.
End UCIEngineCommand.

Module UCIId.
Inductive t : Type :=
| Name (name : string)
| Author (author : string).
End UCIId.

Module UCIOption.
Inductive kind : Type := Check | Spin | Combo | Button | String_.
Record t : Type := mk {
  name : string;
  type : kind;
  default : option string;
  min : option string;
  max : option string;
  var : option string
}.
End UCIOption.

Module UCIGUICommand.
Inductive okError : Type := ok | error.
Inductive okCheckingError : Type := rok | rchecking | rerror.
Inductive t : Type :=
| Id (id : UCIId.t)
| UCIOk
| ReadyOk
| BestMove (move : string) (ponder : option string)
| CopyProtection (status : okError)
| Registration (status : okCheckingError)
| Info (params : list UCIInfo.t)
| Option (option : UCIOption.t).
End UCIGUICommand.

(* ================================================================== *)
(** * lib/UCI/Parser.ts *)
(* ================================================================== *)

Module Grammar.

Import P.

(** ** General utility *)

Definition always {A B} (a : A) : B -> A := fun _ => a.

Definition on : P.Parser bool := P._map (P.str "on") (always true).
Definition off : P.Parser bool := P._map (P.str "false") (always false).
Definition onOff : P.Parser bool := P.choice [on; off].

Definition word : P.Parser string :=
  P.flat (P.manyTill (P.lookahead (P.choice [P.whitespace; P.eof]))
                     (P.noneOf " ")).
Definition words : P.Parser (list string) := P.sepBy word P.whitespaces.

Definition natural : P.Parser number :=
  P.expected "natural number"
    (P._map (P.flat (P.many1 P.digit)) toNumber).

Definition int : P.Parser number :=
  P.expected "integer"
    (sign <- P.option "+" (P.oneOf "-+") ;;
     int <- natural ;;
     P._of (if String.eqb sign "+" then int else neg int)).

Definition floating : P.Parser number :=
  P.expected "floating point number"
    (left <- int ;;
     dot <- P.char "." ;;
     right <- natural ;;
     P._of (parseFloat (numToString left ++ dot ++ numToString right))).

Definition numeric : P.Parser number := P.choice [floating; natural].

(** [skipGarbage(p)] is [alt(p, () => chain(anyChar, always(skipGarbage(p))))].
    The recursion is on the input: [anyChar] drops its first character, or
    fails at the end of the input (equation [skipGarbage_unfold] below). *)
Fixpoint skipGarbage {A} (p : P.Parser A) (x : string)
  : E.Either P.ParseError (A * string) :=
  E.alt (fun _ =>
           match x with
           | String _ rest => skipGarbage p rest
           | EmptyString => E.Left "Expected anything but got EOF"
           end)
        (p x).

(** ** Sub command parsing *)

Definition move := word.
Definition moves : P.Parser (list string) := P.sepBy move P.whitespaces.

Definition uciSetOptionValue : P.Parser string :=
  P.str "value" ;;;
  P.whitespaces ;;;
  value <- P.flat (P.manyTill (P.choice [P.newline; P.eof])
                              (P.noneOf (chr LF))) ;;
  P._of value.

Definition uciSetOptionId : P.Parser string :=
  P.str "name" ;;;
  P.whitespaces ;;;
  id <- P.flat
          (P.manyTill
             (P.lookahead
                (P.choice
                   [P._chain P.whitespaces (always (P.str "value"));
                    P.newline;
                    P.eof]))
             (P.noneOf (chr LF))) ;;
  P._of id.

Definition uciPositionFen : P.Parser UCIPosition.t :=
  P.str "fen" ;;;
  P.whitespaces ;;;
  fen <- P.flat
           (P.manyTill
              (P.lookahead (P.choice [P.str "moves"; P.newline; P.eof]))
              (P.noneOf (chr LF))) ;;
  P._of (UCIPosition.FEN fen).

Definition uciPositionStartPos : P.Parser UCIPosition.t :=
  P._map (P.str "startpos") (always UCIPosition.StartPos).

Definition uciPositionMoves : P.Parser (list string) :=
  P.str "moves" ;;;
  P.whitespaces ;;;
  moves <- moves ;;
  P._of moves.

Definition uciRegisterLater : P.Parser UCIRegister.t :=
  P._map (P.str "later") (always UCIRegister.Later).

Definition uciRegisterName : P.Parser UCIRegister.t :=
  P.str "name" ;;;
  P.whitespaces ;;;
  name <- P.flat (P.manyTill (P.choice [P.newline; P.eof])
                             (P.noneOf (chr LF))) ;;
  P._of (UCIRegister.Name name).

Definition uciRegisterCode : P.Parser UCIRegister.t :=
  P.str "code" ;;;
  P.whitespaces ;;;
  code <- P.flat (P.manyTill (P.choice [P.newline; P.eof])
                             (P.noneOf (chr LF))) ;;
  P._of (UCIRegister.Code code).

Definition uciRegister : P.Parser UCIRegister.t :=
  P.choice [uciRegisterLater; uciRegisterCode; uciRegisterName].

Definition uciGoSearchMovesParameter : P.Parser UCIGoParameter.t :=
  P.str "searchmoves" ;;;
  P.whitespaces ;;;
  moves <- moves ;;
  P._of (UCIGoParameter.SearchMoves moves).

Definition uciGoPonderParameter : P.Parser UCIGoParameter.t :=
  P._map (P.str "ponder") (always UCIGoParameter.Ponder).

Definition uciGoWTimeParameter : P.Parser UCIGoParameter.t :=
  P.str "wtime" ;;;
  P.whitespaces ;;;
  time <- numeric ;;
  P._of (UCIGoParameter.WTime time).

Definition uciGoBTimeParameter : P.Parser UCIGoParameter.t :=
  P.str "btime" ;;;
  P.whitespaces ;;;
  time <- numeric ;;
  P._of (UCIGoParameter.BTime time).

Definition uciGoWIncParameter : P.Parser UCIGoParameter.t :=
  P.str "winc" ;;;
  P.whitespaces ;;;
  time <- numeric ;;
  P._of (UCIGoParameter.WInc time).

Definition uciGoBIncParameter : P.Parser UCIGoParameter.t :=
  P.str "binc" ;;;
  P.whitespaces ;;;
  time <- numeric ;;
  P._of (UCIGoParameter.BInc time).

Definition uciGoMovesToGoParameter : P.Parser UCIGoParameter.t :=
  P.str "movestogo" ;;;
  P.whitespaces ;;;
  n <- numeric ;;
  P._of (UCIGoParameter.MovesToGo n).

Definition uciGoDepthParameter : P.Parser UCIGoParameter.t :=
  P.str "depth" ;;;
  P.whitespaces ;;;
  depth <- numeric ;;
  P._of (UCIGoParameter.Depth depth).

Definition uciGoNodesParameter : P.Parser UCIGoParameter.t :=
  P.str "nodes" ;;;
  P.whitespaces ;;;
  nodes <- numeric ;;
  P._of (UCIGoParameter.Nodes nodes).

Definition uciGoMateParameter : P.Parser UCIGoParameter.t :=
  P.str "mate" ;;;
  P.whitespaces ;;;
  n <- numeric ;;
  P._of (UCIGoParameter.Mate n).

Definition uciGoMoveTimeParameter : P.Parser UCIGoParameter.t :=
  P.str "movetime" ;;;
  P.whitespaces ;;;
  time <- numeric ;;
  P._of (UCIGoParameter.MoveTime time).

Definition uciGoInfiniteParameter : P.Parser UCIGoParameter.t :=
  P._map (P.str "infinite") (always UCIGoParameter.Infinite).

Definition uciGoParameter : P.Parser UCIGoParameter.t :=
  P.choice
    [uciGoSearchMovesParameter;
     uciGoPonderParameter;
     uciGoWTimeParameter;
     uciGoBTimeParameter;
     uciGoWIncParameter;
     uciGoBIncParameter;
     uciGoMovesToGoParameter;
     uciGoDepthParameter;
     uciGoNodesParameter;
     uciGoMateParameter;
     uciGoMoveTimeParameter;
     uciGoInfiniteParameter].

(** ** UCIEngineCommand *)

Definition uciUciCmd : P.Parser UCIEngineCommand.t :=
  P.expected "uci" (P._map (P.str "uci") (always UCIEngineCommand.UCI)).

Definition uciDebugCmd : P.Parser UCIEngineCommand.t :=
  P.expected "debug [on|off]"
    (P.str "debug" ;;;
     P.whitespaces ;;;
     on <- P.option None (P._map onOff Some) ;;
     P._of (UCIEngineCommand.Debug on)).

Definition uciIsReadyCmd : P.Parser UCIEngineCommand.t :=
  P.expected "isready"
    (P._map (P.str "isready") (always UCIEngineCommand.IsReady)).

Definition uciSetOptionCmd : P.Parser UCIEngineCommand.t :=
  P.expected "setoption name <id> [value <x>]"
    (P.str "setoption" ;;;
     P.whitespaces ;;;
     name <- uciSetOptionId ;;
     P.whitespaces ;;;
     value <- uciSetOptionValue ;;
     P._of (UCIEngineCommand.SetOption name (Some value))).

Definition uciRegisterCmd : P.Parser UCIEngineCommand.t :=
  P.expected "register [parameter]"
    (P.str "register" ;;;
     P.whitespaces ;;;
     register <- uciRegister ;;
     P._of (UCIEngineCommand.Register register)).

Definition uciNewGameCmd : P.Parser UCIEngineCommand.t :=
  P.expected "ucinewgame"
    (P._map (P.str "ucinewgame") (always UCIEngineCommand.UCINewGame)).

Definition uciPositionCmd : P.Parser UCIEngineCommand.t :=
  P.expected
    "position [fen <fenstring> | startpos ]  moves <move1> .... <movei>"
    (P.str "position" ;;;
     P.whitespaces ;;;
     position <- P.choice [uciPositionFen; uciPositionStartPos] ;;
     P.whitespaces ;;;
     moves <- P.option [] uciPositionMoves ;;
     P._of (UCIEngineCommand.Position position moves)).

Definition uciGoCmd : P.Parser UCIEngineCommand.t :=
  P.expected "go [parameters]"
    (P.str "go" ;;;
     P.whitespaces ;;;
     params <- P.sepBy uciGoParameter P.whitespaces ;;
     P._of (UCIEngineCommand.Go params)).

Definition uciStopCmd : P.Parser UCIEngineCommand.t :=
  P.expected "stop" (P._map (P.str "stop") (always UCIEngineCommand.Stop)).

Definition uciPonderhitCmd : P.Parser UCIEngineCommand.t :=
  P.expected "ponderhit"
    (P._map (P.str "ponderhit") (always UCIEngineCommand.Ponderhit)).

Definition uciQuitCmd : P.Parser UCIEngineCommand.t :=
  P.expected "quit" (P._map (P.str "quit") (always UCIEngineCommand.Quit)).

Definition uciEngineCmd : P.Parser UCIEngineCommand.t :=
  P.choice
    [uciUciCmd;
     uciDebugCmd;
     uciIsReadyCmd;
     uciSetOptionCmd;
     uciRegisterCmd;
     uciNewGameCmd;
     uciPositionCmd;
     uciGoCmd;
     uciStopCmd;
     uciPonderhitCmd;
     uciQuitCmd].

Definition uciEngineCmdEOF : P.Parser UCIEngineCommand.t :=
  cmd <- uciEngineCmd ;;
  P.whitespaces ;;;
  P.eof ;;;
  P._of cmd.

Definition parseUCIEngineCmd (s : string)
  : E.Either string UCIEngineCommand.t :=
  E.map (fun '(c, _) => c)
        (P.expected "proper command eventually" (skipGarbage uciEngineCmdEOF) s).

End Grammar.

(* ================================================================== *)
(** * lib/UCI/Protocol: serialization and the protocol handler *)
(* ================================================================== *)

Module Protocol.

Definition Tokens := list string.

(** A value the source tests for truthiness: present and not empty. *)
Definition truthy (o : option string) : bool :=
  match o with
  | Some s => negb (String.eqb s "")
  | None => false
  end.

(** [...(v ? [key, v] : [])]. *)
Definition optionalField (key : string) (v : option string) : Tokens :=
  match v with
  | Some s => if truthy v then [key; s] else []
  | None => []
  end.

Fixpoint lastChar (s : string) : option ascii :=
  match s with
  | EmptyString => None
  | String c EmptyString => Some c
  | String _ rest => lastChar rest
  end.

(** Adds a new line to a non-empty string that does not end with one. *)
Definition withLine (s : string) : string :=
  match lastChar s with
  | None => s
  | Some c => if Ascii.eqb c LF then s else s ++ chr LF
  end.

Definition tokenizeId (id : UCIId.t) : Tokens :=
  match id with
  | UCIId.Name name => ["name"; name]
  | UCIId.Author author => ["author"; author]
  end.

Definition toLowerCase (k : UCIOption.kind) : string :=
  match k with
  | UCIOption.Check => "check"
  | UCIOption.Spin => "spin"
  | UCIOption.Combo => "combo"
  | UCIOption.Button => "button"
  | UCIOption.String_ => "string"
  end.

Definition tokenizeOption (option : UCIOption.t) : Tokens :=
  (["name"; UCIOption.name option; "type"; toLowerCase (UCIOption.type option)]
   ++ optionalField "default" (UCIOption.default option)
   ++ optionalField "min" (UCIOption.min option)
   ++ optionalField "max" (UCIOption.max option)
   ++ optionalField "var" (UCIOption.var option))%list.

Definition statusText (s : UCIGUICommand.okError) : string :=
  match s with
  | UCIGUICommand.ok => "ok"
  | UCIGUICommand.error => "error"
  end.

Definition registrationText (s : UCIGUICommand.okCheckingError) : string :=
  match s with
  | UCIGUICommand.rok => "ok"
  | UCIGUICommand.rchecking => "checking"
  | UCIGUICommand.rerror => "error"
  end.

Definition serializeTokens (tokens : Tokens) : string := join " " tokens.

Section Tokenize.

(** [`${n}`] on an arbitrary number: JavaScript's own conversion, taken
    as given. *)
Variable showNumber : number -> string.

Definition tokenizeScore (score : UCIScore.t) : Tokens :=
  match score with
  | UCIScore.Centipawns n => ["cp"; showNumber n]
  | UCIScore.Mate n => ["mate"; showNumber n]
  | UCIScore.Lowerbound => ["lowerbound"]
  | UCIScore.Upperbound => ["upperbound"]
  end.

Definition tokenizeInfo (info : UCIInfo.t) : Tokens :=
  match info with
  | UCIInfo.Depth depth => ["depth"; showNumber depth]
  | UCIInfo.SelDepth depth => ["seldepth"; showNumber depth]
  | UCIInfo.Time time => ["time"; showNumber time]
  | UCIInfo.Nodes nodes => ["nodes"; showNumber nodes]
  | UCIInfo.Preview moves => "pv" :: moves
  | UCIInfo.MultiPreview n => ["multipv"; showNumber n]
  | UCIInfo.Score params => "score" :: flat_map tokenizeScore params
  | UCIInfo.CurrMove move => ["currmove"; move]
  | UCIInfo.CurrMoveNumber n => ["currmovenumber"; showNumber n]
  | UCIInfo.HashFull n => ["hashfull"; showNumber n]
  | UCIInfo.NodesPerSecond n => ["nps"; showNumber n]
  | UCIInfo.TableBaseHits n => ["tbhits"; showNumber n]
  | UCIInfo.ShredderBaseHits n => ["sbhits"; showNumber n]
  | UCIInfo.CPULoad n => ["cpuload"; showNumber n]
  | UCIInfo.String_ s => ["string"; s]
  | UCIInfo.Refutation moves => "refutation" :: moves
  | UCIInfo.CurrLine cpunr moves => "currline" :: showNumber cpunr :: moves
  end.

Definition tokenizeGUICmd (guiCmd : UCIGUICommand.t) : Tokens :=
  match guiCmd with
  | UCIGUICommand.Id id => "id" :: tokenizeId id
  | UCIGUICommand.UCIOk => ["uciok"]
  | UCIGUICommand.ReadyOk => ["readyok"]
  | UCIGUICommand.BestMove move ponder =>
      (["bestmove"; move]
       ++ match ponder with
          | Some p => if truthy ponder then [p] else []
          | None => []
          end)%list
  | UCIGUICommand.CopyProtection status => ["copyprotection"; statusText status]
  | UCIGUICommand.Registration status =>
      ["registration"; registrationText status]
  | UCIGUICommand.Info params => "info" :: flat_map tokenizeInfo params
  | UCIGUICommand.Option option => "option" :: tokenizeOption option
  end.

Definition serializeGUICmd (guiCmd : UCIGUICommand.t) : string :=
  serializeTokens (tokenizeGUICmd guiCmd).

End Tokenize.

(** ** The handler interface *)

(** What [onInit] resolves with. *)
Record InitResult : Type := {
  name : string;
  author : string;
  options : list UCIOption.t
}.

(** A promise, seen at its settlement: resolved with a value, or rejected
    with what was thrown ([Some message] for an [Error], [None] for
    anything else).  Either way the handler's state [S] has moved. *)
Inductive Settled (S A : Type) : Type :=
| Resolved (a : A) (s : S)
| Rejected (err : option string) (s : S).

Arguments Resolved {S A} a s.
Arguments Rejected {S A} err s.

Definition Promise (S A : Type) : Type := S -> Settled S A.

(** [promise.then(f)] *)
Definition then_ {S A B} (m : Promise S A) (f : A -> B) : Promise S B :=
  fun s =>
    match m s with
    | Resolved a s' => Resolved (f a) s'
    | Rejected err s' => Rejected err s'
    end.

Record UCIHandler (S : Type) : Type := {
  onInit : Promise S InitResult;
  onReadyProbe : Promise S unit;
  onDebug : option bool -> Promise S unit;
  onSetOption : string -> option string -> Promise S unit;
  onNewGame : Promise S unit;
  onLoadPosition : UCIPosition.t -> list string -> Promise S unit;
  onGo : list UCIGoParameter.t -> Promise S unit;
  onStop : Promise S unit;
  onPonderHit : Promise S unit;
  onQuit : Promise S unit
}.

Arguments onInit {S}.
Arguments onReadyProbe {S}.
Arguments onDebug {S}.
Arguments onSetOption {S}.
Arguments onNewGame {S}.
Arguments onLoadPosition {S}.
Arguments onGo {S}.
Arguments onStop {S}.
Arguments onPonderHit {S}.
Arguments onQuit {S}.

Definition protocolHandler {S} (h : UCIHandler S)
    (engineCmd : UCIEngineCommand.t) : Promise S (list UCIGUICommand.t) :=
  match engineCmd with
  | UCIEngineCommand.UCI =>
      then_ (onInit h) (fun r =>
        ([UCIGUICommand.Id (UCIId.Name (name r));
          UCIGUICommand.Id (UCIId.Author (author r))]
         ++ map UCIGUICommand.Option (options r)
         ++ [UCIGUICommand.UCIOk])%list)
  | UCIEngineCommand.Debug on => then_ (onDebug h on) (fun _ => [])
  | UCIEngineCommand.IsReady =>
      then_ (onReadyProbe h) (fun _ => [UCIGUICommand.ReadyOk])
  | UCIEngineCommand.SetOption name value =>
      then_ (onSetOption h name value) (fun _ => [])
  | UCIEngineCommand.Register _ => fun s => Resolved [] s
  | UCIEngineCommand.UCINewGame => then_ (onNewGame h) (fun _ => [])
  | UCIEngineCommand.Position position moves =>
      then_ (onLoadPosition h position moves) (fun _ => [])
  | UCIEngineCommand.Go params => then_ (onGo h params) (fun _ => [])
  | UCIEngineCommand.Stop => then_ (onStop h) (fun _ => [])
  | UCIEngineCommand.Ponderhit => then_ (onPonderHit h) (fun _ => [])
  | UCIEngineCommand.Quit => then_ (onQuit h) (fun _ => [])
  end.

(** [wrapStrErr]: a rejection becomes an error text. *)
Definition wrapStrErr {S A} (m : Promise S A) (s : S)
  : E.Either string A * S :=
  match m s with
  | Resolved a s' => (E.Right a, s')
  | Rejected (Some message) s' =>
      (E.Left ("Unexpected error: " ++ message), s')
  | Rejected None s' => (E.Left "Unknown error", s')
  end.

(** What [handleLine] writes: one chunk to the output stream, one to the
    error stream, or nothing at all. *)
Inductive Written : Type :=
| ToOutput (chunk : string)
| ToError (chunk : string)
| Unwritten.

Section Listen.

Variable showNumber : number -> string.
(** Whether [prepare] was given the optional [error] stream. *)
Variable error : bool.
Context {S : Type}.
Variable handler : UCIHandler S.

Definition writeP (s : string) : Written := ToOutput (withLine s).

(** Without an error stream nothing is written (and the promise of the
    write is never resolved). *)
Definition writeErrorP (s : string) : Written :=
  if error then ToError (withLine s) else Unwritten.

Definition informResult (ex : E.Either string string) : Written :=
  match ex with
  | E.Right s => writeP s
  | E.Left err => writeErrorP err
  end.

(** [handleLine]: parse, dispatch, serialize, report. *)
Definition handleLine (line : string) (s : S) : Written * S :=
  match Grammar.parseUCIEngineCmd line with
  | E.Left err => (informResult (E.Left err), s)
  | E.Right cmd =>
      let '(ex, s') := wrapStrErr (protocolHandler handler cmd) s in
      (informResult
         (E.map (fun cmds => join (chr LF) (map (serializeGUICmd showNumber) cmds))
                ex),
       s')
  end.

End Listen.

End Protocol.

(* ================================================================== *)
(** * The proxy handler (class [UCIProxyHandler]) *)
(* ================================================================== *)

(** The handler is an object whose methods are [async] functions; the
    event loop runs one macrotask at a time (a dispatched method up to its
    first pending [await], the settlement of the robot request, the
    callback of a finished write).  [Proxy.step] is one such macrotask on
    the handler's fields, with the effects it has in order.

    The platform is taken as its standards describe it: [fetch] with a
    signal that is aborted, or that is aborted while the request or the
    reading of its body is pending, rejects; an [await] always suspends;
    [process.exit] ends the process at once, pending continuations
    included.  chess.js is a parameter of the machine. *)

Module Proxy.

Definition startFen : string :=
  "rnbqkbnr/pppppppp/8/8/8/8/PPPPPPPP/RNBQKBNR w KQkq - 0 1".

(** A thrown value: [Some message] when it is an [Error], else [None]. *)
Definition Thrown : Type := option string.

Inductive Effect : Type :=
| LogDebug (s : string)
| Fetch (fen turn : string)
| SendInfo (info : UCIInfo.t)
| SendBestMove (lan : string)
| Teardown (action : string)
| Throw (err : Thrown)
| ProcessExit (code : Z).

(** The body of an [async] capability handed to the handler, as far as
    the handler can tell: its actions in order, the points where it awaits
    a promise that is still pending, and a [process.exit] of its own. *)
Inductive Task : Type :=
| Done
| Act (action : string) (k : Task)
| Await (k : Task)
| Exit (code : Z).

(** Calling an [async] function runs its body up to the first [await]
    (or to a [process.exit]); the rest is left to a later turn of the
    event loop. *)
Fixpoint runSync (t : Task) : list Effect :=
  match t with
  | Done => []
  | Act action k => Teardown action :: runSync k
  | Await _ => []
  | Exit code => [ProcessExit code]
  end.

(** The exit code, when that first run ends the process. *)
Fixpoint exitsSync (t : Task) : option Z :=
  match t with
  | Done => None
  | Act _ k => exitsSync k
  | Await _ => None
  | Exit code => Some code
  end.

(** All the effects of the task when every promise it awaits resolves:
    what a caller that awaits it sees before going on. *)
Fixpoint runToCompletion (t : Task) : list Effect :=
  match t with
  | Done => []
  | Act action k => Teardown action :: runToCompletion k
  | Await k => runToCompletion k
  | Exit code => [ProcessExit code]
  end.

(** [[x.split(" ")]]. *)
Fixpoint splitSpace (cur : string) (x : string) : list string :=
  match x with
  | EmptyString => [cur]
  | String c rest =>
      if Ascii.eqb c " " then cur :: splitSpace "" rest
      else splitSpace (cur ++ chr c) rest
  end.

Definition turnOf (fen : string) : string :=
  match nth_error (splitSpace "" fen) 1 with
  | Some "w" => "white"
  | _ => "black"
  end.

(** [lanToFromTo]: the squares and the promotion piece of a move in long
    algebraic notation; an empty promotion is [undefined]. *)
Definition lanToFromTo (lan : string) : string * string * option string :=
  let from := substring 0 2 lan in
  let to := substring 2 2 lan in
  let promotion := slice 4 lan in
  (from, to, if String.eqb promotion "" then None else Some promotion).

(** The in-flight search, while [this.robotRequest] is defined. *)
Inductive Request : Type :=
| Pending                   (* [await this.robotRequest] *)
| Informing (lan : string)  (* [await this.sendInfo(...)] *)
| Answering.                (* [await this.sendBestMove(lan)] *)

Record Handler : Type := mkHandler {
  fen : string;
  moves : list string;
  initialized : bool;
  (** [this.abortController.signal.aborted]: the controller is the one the
      constructor created; no method assigns the field. *)
  aborted : bool;
  robotRequest : option Request;
  (** The code [process.exit] was called with, once it was. *)
  exited : option Z
}.

Definition construct : Handler :=
  {| fen := startFen; moves := []; initialized := false;
     aborted := false; robotRequest := None; exited := None |}.

Definition setRequest (r : option Request) (st : Handler) : Handler :=
  {| fen := fen st; moves := moves st; initialized := initialized st;
     aborted := aborted st; robotRequest := r; exited := exited st |}.

Definition setPosition (f : string) (ms : list string) (st : Handler) : Handler :=
  {| fen := f; moves := ms; initialized := initialized st;
     aborted := aborted st; robotRequest := robotRequest st;
     exited := exited st |}.

Definition setInitialized (st : Handler) : Handler :=
  {| fen := fen st; moves := moves st; initialized := true;
     aborted := aborted st; robotRequest := robotRequest st;
     exited := exited st |}.

Definition abort (st : Handler) : Handler :=
  {| fen := fen st; moves := moves st; initialized := initialized st;
     aborted := true; robotRequest := robotRequest st; exited := exited st |}.

Definition exit (code : Z) (st : Handler) : Handler :=
  {| fen := fen st; moves := moves st; initialized := initialized st;
     aborted := aborted st; robotRequest := robotRequest st;
     exited := Some code |}.

Inductive Event : Type :=
| OnInit                       (* [onInit], the startup it awaits done *)
| OnReadyProbe
| OnDebug
| OnSetOption (name : string) (value : option string)
| OnNewGame
| OnLoadPosition (position : UCIPosition.t) (moves : list string)
| OnGo (params : list UCIGoParameter.t)
| OnStop
| OnPonderHit
| OnQuit
| RobotReplied (response : string)  (* the fetch and its text resolve *)
| RobotFailed (err : Thrown)        (* the fetch rejects on its own *)
| Flushed.                          (* the pending write's callback *)

Section Machine.

(** chess.js, as the handler uses it on a position given by a FEN and a
    list of moves. *)
Variable chess_load : string -> option Thrown.
Variable chess_replay : string -> list string -> option Thrown.
Variable chess_ascii : string -> list string -> string.
Variable chess_fen : string -> list string -> string.
Variable chess_moves : string -> list string -> string.
Variable chess_san : string -> list string -> string -> E.Either Thrown string.
Variable JSON_stringify : list string -> string.
(** What a fetch rejects with when its signal is aborted. *)
Variable abortError : Thrown.
(** The teardown capability handed to the constructor ([onQuit_]). *)
Variable onQuit_ : Task.

(** The diagnostics of [loadBoard], [chess.load] having succeeded. *)
Definition loadBoard (st : Handler) : list Effect :=
  match chess_replay (fen st) (moves st) with
  | None => []
  | Some (Some message) =>
      [LogDebug ("Error applying moves: " ++ message
                 ++ ". All moves: " ++ JSON_stringify (moves st)
                 ++ ". Available moves: " ++ chess_moves (fen st) (moves st))]
  | Some None => [LogDebug "Unknown error"]
  end.

(** The [catch] block of [onGo]. *)
Definition caught (err : Thrown) : Effect :=
  match err with
  | Some message => LogDebug ("Caught error while asking robot: " ++ message)
  | None => LogDebug "Caught unknown error while asking robot."
  end.

Definition onGo (st : Handler) (params : list UCIGoParameter.t)
  : Handler * list Effect :=
  match robotRequest st with
  | Some _ =>
      (exit 1 st,
       [LogDebug "Received a go request while another go request active!";
        LogDebug "If client was respecting UCI, then we have a severe bug.";
        LogDebug "I don't know what to do, so I guess I'll die.";
        ProcessExit 1])
  | None =>
      let warn :=
        if initialized st then []
        else [LogDebug "Received a go request before initialization.";
              LogDebug "This is non-fatal, but may indicate a bug.";
              LogDebug "Execution will continue."] in
      match chess_load (fen st) with
      | Some err => (st, warn ++ [Throw err])%list
      | None =>
          let intro :=
            (warn ++ loadBoard st
             ++ [LogDebug "Received go.";
                 LogDebug "Current chess board is:";
                 LogDebug (chess_ascii (fen st) (moves st));
                 LogDebug ("FEN: " ++ chess_fen (fen st) (moves st))])%list in
          if aborted st then
            (* the fetch rejects at once; [catch], then [finally] *)
            (setRequest None st,
             (intro ++ [LogDebug "Asking robot"; caught abortError])%list)
          else
            (setRequest (Some Pending) st,
             (intro ++ [Fetch (chess_fen (fen st) (moves st)) (turnOf (fen st));
                        LogDebug "Asking robot"])%list)
      end
  end.

(** [onGo] resumed with the robot's response. *)
Definition onResponse (st : Handler) (response : string)
  : Handler * list Effect :=
  let says := LogDebug ("Robot says: " ++ response) in
  match chess_load (fen st) with
  | Some err => (setRequest None st, [says; caught err])
  | None =>
      match chess_san (fen st) (moves st) response with
      | E.Left err =>
          (setRequest None st, (says :: loadBoard st ++ [caught err])%list)
      | E.Right lan =>
          (setRequest (Some (Informing lan)) st,
           (says :: loadBoard st
            ++ [SendInfo (UCIInfo.Score [UCIScore.Centipawns (ofInt 1)])])%list)
      end
  end.

Definition onStop (st : Handler) : Handler * list Effect :=
  let stop := LogDebug "Received a stop command, aborting robot..." in
  match robotRequest st with
  | Some Pending =>
      (* the pending fetch rejects; [catch], then [finally] *)
      (setRequest None (abort st), [stop; caught abortError])
  | _ => (abort st, [stop])
  end.

(** [this.onQuit_(); process.exit(0);] *)
Definition onQuit (st : Handler) : Handler * list Effect :=
  match exitsSync onQuit_ with
  | Some code => (exit code st, runSync onQuit_)
  | None => (exit 0 st, (runSync onQuit_ ++ [ProcessExit 0])%list)
  end.

Definition step (st : Handler) (ev : Event) : Handler * list Effect :=
  match exited st with
  | Some _ => (st, [])
  | None =>
      match ev with
      | OnInit => (setInitialized st, [])
      | OnReadyProbe => (st, [])
      | OnDebug => (st, [])
      | OnSetOption _ _ => (st, [])
      | OnNewGame => (setPosition startFen [] st, [])
      | OnLoadPosition (UCIPosition.FEN f) ms => (setPosition f ms st, [])
      | OnLoadPosition UCIPosition.StartPos ms =>
          (setPosition startFen ms st, [])
      | OnGo params => onGo st params
      | OnStop => onStop st
      | OnPonderHit => (st, [])
      | OnQuit => onQuit st
      | RobotReplied response =>
          match robotRequest st with
          | Some Pending => onResponse st response
          | _ => (st, [])
          end
      | RobotFailed err =>
          match robotRequest st with
          | Some Pending => (setRequest None st, [caught err])
          | _ => (st, [])
          end
      | Flushed =>
          match robotRequest st with
          | Some (Informing lan) =>
              (setRequest (Some Answering) st, [SendBestMove lan])
          | Some Answering => (setRequest None st, [])
          | _ => (st, [])
          end
      end
  end.

(** A session: the events in order, their effects concatenated. *)
Fixpoint run (st : Handler) (evs : list Event) : Handler * list Effect :=
  match evs with
  | [] => (st, [])
  | ev :: rest =>
      let '(st1, out1) := step st ev in
      let '(st2, out2) := run st1 rest in
      (st2, (out1 ++ out2)%list)
  end.

End Machine.

(** Response lines among effects. *)
Definition isResponse (e : Effect) : bool :=
  match e with
  | SendInfo _ | SendBestMove _ => true
  | _ => false
  end.

Definition isBestMove (e : Effect) : bool :=
  match e with
  | SendBestMove _ => true
  | _ => false
  end.

(** A request sent to the robot. *)
Definition isFetch (e : Effect) : bool :=
  match e with
  | Fetch _ _ => true
  | _ => false
  end.

(** Neither a request to the robot nor a response line: diagnostics, a
    rejection, the end of the process. *)
Definition isQuiet (e : Effect) : bool :=
  negb (isFetch e) && negb (isResponse e).

(** [main]'s teardown: the thunk awaits [setupRobotPromise], then
    [setupRobot]'s [exitGracefully] announces itself, kills the robot's
    process group, awaits its death or the timeout, and exits. *)
Definition exitGracefully : Task :=
  Await
    (Act "process.stderr.write: Exiting gracefully..."
       (Act "process.kill(-robotPid)"
          (Await
             (Act "process.stderr.write: Done."
                (Exit 0))))).

End Proxy.

(* ================================================================== *)
(** * Vocabulary of the statements about the numeric parsers *)
(* ================================================================== *)

Fixpoint allDigits (x : string) : bool :=
  match x with
  | EmptyString => true
  | String c rest => isDigit c && allDigits rest
  end.

Definition startsWithDigit (x : string) : bool :=
  match x with
  | EmptyString => false
  | String c _ => isDigit c
  end.

(** The characters of a string, each as a one-character string. *)
Fixpoint chars (x : string) : list string :=
  match x with
  | EmptyString => []
  | String c rest => chr c :: chars rest
  end.

(** The value [int] yields for a digit run of value [n] behind the sign
    text [sg] (empty, ["+"] or ["-"]). *)
Definition applySign (sg : string) (n : number) : number :=
  if String.eqb sg "-" then neg n else n.

(* ================================================================== *)
(** * Vocabulary of the statements about the [Uci] dispatch *)
(* ================================================================== *)

(** Identity, then each advertised option, then the acknowledgment. *)
Definition uciResponses (r : Protocol.InitResult) : list UCIGUICommand.t :=
  ([UCIGUICommand.Id (UCIId.Name (Protocol.name r));
    UCIGUICommand.Id (UCIId.Author (Protocol.author r))]
   ++ map UCIGUICommand.Option (Protocol.options r)
   ++ [UCIGUICommand.UCIOk])%list.

(** The keyword of an option kind: its name in lower case. *)
Definition kindKeyword (k : UCIOption.kind) : string :=
  match k with
  | UCIOption.Check => "check"
  | UCIOption.Spin => "spin"
  | UCIOption.Combo => "combo"
  | UCIOption.Button => "button"
  | UCIOption.String_ => "string"
  end.

(** An optional field of an option line: a space, the keyword, a space
    and the value; nothing where the field is absent, a field that is the
    empty text counting as absent. *)
Definition optionField (keyword : string) (v : option string) : string :=
  match v with
  | Some (String c r) => " " ++ keyword ++ " " ++ String c r
  | _ => ""
  end.

(** The line of an option response:
    `option name <n> type (check|spin|combo|button|string) [default V]
    [min V] [max V] [var V]`. *)
Definition optionLine (o : UCIOption.t) : string :=
  "option name " ++ UCIOption.name o
  ++ " type " ++ kindKeyword (UCIOption.type o)
  ++ optionField "default" (UCIOption.default o)
  ++ optionField "min" (UCIOption.min o)
  ++ optionField "max" (UCIOption.max o)
  ++ optionField "var" (UCIOption.var o).

(** The lines `id name <name>`, `id author <author>`, the option lines
    and `uciok`. *)
Definition uciLines (r : Protocol.InitResult) : list string :=
  ("id name " ++ Protocol.name r)
  :: ("id author " ++ Protocol.author r)
  :: (map optionLine (Protocol.options r) ++ ["uciok"])%list.

(* ================================================================== *)
(** * Vocabulary of the statements about repetition and tokens *)
(* ================================================================== *)

(** The longest prefix of [x] whose characters satisfy [f], and the rest. *)
Fixpoint takeWhile (f : ascii -> bool) (x : string) : string :=
  match x with
  | EmptyString => EmptyString
  | String c rest => if f c then String c (takeWhile f rest) else EmptyString
  end.

Fixpoint dropWhile (f : ascii -> bool) (x : string) : string :=
  match x with
  | EmptyString => EmptyString
  | String c rest => if f c then dropWhile f rest else x
  end.

Fixpoint allChars (f : ascii -> bool) (x : string) : bool :=
  match x with
  | EmptyString => true
  | String c rest => f c && allChars f rest
  end.

(** The characters [whitespace] accepts. *)
Definition isWhitespace (c : ascii) : bool :=
  includes (String LF (String TAB (String CR " "))) c.

Definition notWhitespace (c : ascii) : bool := negb (isWhitespace c).

(** A character of a line's text: neither a line feed nor a carriage
    return. *)
Definition isLineChar (c : ascii) : bool :=
  negb (Ascii.eqb c LF) && negb (Ascii.eqb c CR).

Definition startsWithWhitespace (x : string) : bool :=
  match x with
  | EmptyString => false
  | String c _ => isWhitespace c
  end.

(** A parser that, on a non-empty input, leaves less than it was given
    whenever it succeeds. *)
Definition consumes {A} (p : P.Parser A) : Prop :=
  forall x a r, x <> "" -> p x = E.Right (a, r) ->
                String.length r < String.length x.

(** The text of a list of words, each behind one space. *)
Fixpoint spaced (ws : list string) : string :=
  match ws with
  | [] => ""
  | w :: rest => " " ++ w ++ spaced rest
  end.

(** The keywords of the numeric go parameters, each with its tag. *)
Definition numericGoParameters
  : list (string * (number -> UCIGoParameter.t)) :=
  [("wtime", UCIGoParameter.WTime);
   ("btime", UCIGoParameter.BTime);
   ("winc", UCIGoParameter.WInc);
   ("binc", UCIGoParameter.BInc);
   ("movestogo", UCIGoParameter.MovesToGo);
   ("depth", UCIGoParameter.Depth);
   ("nodes", UCIGoParameter.Nodes);
   ("mate", UCIGoParameter.Mate);
   ("movetime", UCIGoParameter.MoveTime)].

(** The one message every failed parse of a line ends with. *)
Definition parseFailure : string :=
  "Expected proper command eventually but: Expected anything but got EOF".

(** A character of a FEN text as [position fen] reads it: any character
    of a line but the letter m, at which the keyword "moves" may start. *)
Definition isFenChar (c : ascii) : bool :=
  isLineChar c && negb (Ascii.eqb c "m").

(** The end condition of the FEN text:
    [lookahead(choice(str("moves"), newline, eof))]. *)
Definition fenEnd : P.Parser string :=
  P.lookahead (P.choice [P.str "moves"; P.newline; P.eof]).

(** A character of an option id: any character of a line but the letter
    v, at which the keyword "value" may start. *)
Definition isIdChar (c : ascii) : bool :=
  isLineChar c && negb (Ascii.eqb c "v").

(** An option id: characters of an id, the last of which is no
    whitespace. *)
Fixpoint isOptionId (s : string) : bool :=
  match s with
  | EmptyString => false
  | String c EmptyString => isIdChar c && notWhitespace c
  | String c rest => isIdChar c && isOptionId rest
  end.

(** The end condition of the option id:
    [lookahead(choice(chain(whitespaces, always(str("value"))), newline, eof))]. *)
Definition idEnd : P.Parser string :=
  P.lookahead
    (P.choice
       [P._chain P.whitespaces (Grammar.always (P.str "value"));
        P.newline; P.eof]).

(** Inside a text that [manyTill(end)(noneOf("\n"))] reads: at each of
    its characters the end condition fails and the character is no line
    feed. *)
Fixpoint insideText {B} (endp : P.Parser B) (t tail : string) : Prop :=
  match t with
  | EmptyString => True
  | String c rest =>
      includes (chr LF) c = false /\
      E.isLeft (endp (String c rest ++ tail)) = true /\
      insideText endp rest tail
  end.

(** An absent field for an empty one. *)
Definition dropEmpty (o : option string) : option string :=
  match o with
  | Some s => if String.eqb s "" then None else Some s
  | None => None
  end.

Definition dropEmptyFields (o : UCIOption.t) : UCIOption.t :=
  {| UCIOption.name := UCIOption.name o;
     UCIOption.type := UCIOption.type o;
     UCIOption.default := dropEmpty (UCIOption.default o);
     UCIOption.min := dropEmpty (UCIOption.min o);
     UCIOption.max := dropEmpty (UCIOption.max o);
     UCIOption.var := dropEmpty (UCIOption.var o) |}.

(** How many effects of a list satisfy [f]. *)
Definition countIf (f : Proxy.Effect -> bool) (out : list Proxy.Effect) : nat :=
  List.length (filter f out).

(** A best move still owed: a request is pending, or its answer is being
    written out. *)
Definition owed (st : Proxy.Handler) : nat :=
  match Proxy.robotRequest st with
  | Some Proxy.Pending => 1
  | Some (Proxy.Informing _) => 1
  | _ => 0
  end.

(** Operands and operators read from [s] on, folded to the left from the
    value [x]: the fold stops where the operator, or the operand behind
    it, fails. *)
Inductive FoldsLeft {A} (p : P.Parser A) (op : P.Parser (A -> A -> A))
  : A -> string -> A -> string -> Prop :=
| FoldsLeft_stop x s :
    E.isLeft (P._chain op (fun f => P._chain p (fun y => P._of (f x y))) s)
    = true ->
    FoldsLeft p op x s x s
| FoldsLeft_step x s f s1 y s2 z s3 :
    op s = E.Right (f, s1) ->
    p s1 = E.Right (y, s2) ->
    String.length s2 < String.length s ->
    FoldsLeft p op (f x y) s2 z s3 ->
    FoldsLeft p op x s z s3.

(** A text and what is left of it past each of its characters, the empty
    end included. *)
Fixpoint suffixes (x : string) : list string :=
  x :: match x with
       | EmptyString => []
       | String _ rest => suffixes rest
       end.

(** The characters no command keyword starts with. *)
Definition startsNoKeyword (c : ascii) : bool := negb (includes "udisrpgq" c).

(** Single digits with a minus sign between them, to fold. *)
Definition operand : P.Parser Z := P._map P.digit (digitsValue 0).

Definition minus : P.Parser (Z -> Z -> Z) :=
  P._map (P.char "-") (fun _ => Z.sub).

(** The end condition of [word]: [lookahead(choice(whitespace, eof))]. *)
Definition wordEnd : P.Parser string :=
  P.lookahead (P.choice [P.whitespace; P.eof]).

(** The end condition of the texts that run to the end of the line (the
    value of [setoption], the name and the code of [register]):
    [choice(newline, eof)]. *)
Definition lineEnd : P.Parser string := P.choice [P.newline; P.eof].

(** A word of a command line: not empty, no whitespace in it. *)
Definition isWord (w : string) : bool :=
  negb (String.eqb w "") && allChars notWhitespace w.

(* ================================================================== *)
(** * Stubs for concrete sessions *)
(* ================================================================== *)

(** A handler stub over no state that reports [{name: "X", author: "Y",
    options: []}]. *)
Definition stubHandler : Protocol.UCIHandler unit :=
  {| Protocol.onInit := fun s =>
       Protocol.Resolved
         {| Protocol.name := "X"; Protocol.author := "Y";
            Protocol.options := [] |} s;
     Protocol.onReadyProbe := Protocol.Resolved tt;
     Protocol.onDebug := fun _ => Protocol.Resolved tt;
     Protocol.onSetOption := fun _ _ => Protocol.Resolved tt;
     Protocol.onNewGame := Protocol.Resolved tt;
     Protocol.onLoadPosition := fun _ _ => Protocol.Resolved tt;
     Protocol.onGo := fun _ => Protocol.Resolved tt;
     Protocol.onStop := Protocol.Resolved tt;
     Protocol.onPonderHit := Protocol.Resolved tt;
     Protocol.onQuit := Protocol.Resolved tt |}.

(** The options of the handler below: a spin with its bounds, a check,
    and a button whose default is the empty text. *)
Definition advertised : list UCIOption.t :=
  [UCIOption.mk "Hash" UCIOption.Spin (Some "16") (Some "1") (Some "128") None;
   UCIOption.mk "Ponder" UCIOption.Check (Some "false") None None None;
   UCIOption.mk "Clear Hash" UCIOption.Button (Some "") None None None].

(** A handler stub over no state that advertises these options. *)
Definition advertisingHandler : Protocol.UCIHandler unit :=
  {| Protocol.onInit := fun s =>
       Protocol.Resolved
         {| Protocol.name := "X"; Protocol.author := "Y";
            Protocol.options := advertised |} s;
     Protocol.onReadyProbe := Protocol.Resolved tt;
     Protocol.onDebug := fun _ => Protocol.Resolved tt;
     Protocol.onSetOption := fun _ _ => Protocol.Resolved tt;
     Protocol.onNewGame := Protocol.Resolved tt;
     Protocol.onLoadPosition := fun _ _ => Protocol.Resolved tt;
     Protocol.onGo := fun _ => Protocol.Resolved tt;
     Protocol.onStop := Protocol.Resolved tt;
     Protocol.onPonderHit := Protocol.Resolved tt;
     Protocol.onQuit := Protocol.Resolved tt |}.

(** A handler whose search throws. *)
Definition failingHandler : Protocol.UCIHandler nat :=
  {| Protocol.onInit := fun s =>
       Protocol.Resolved
         {| Protocol.name := "X"; Protocol.author := "Y";
            Protocol.options := [] |} s;
     Protocol.onReadyProbe := Protocol.Resolved tt;
     Protocol.onDebug := fun _ => Protocol.Resolved tt;
     Protocol.onSetOption := fun _ _ => Protocol.Resolved tt;
     Protocol.onNewGame := Protocol.Resolved tt;
     Protocol.onLoadPosition := fun _ _ => Protocol.Resolved tt;
     Protocol.onGo := fun _ s => Protocol.Rejected (Some "no robot") (S s);
     Protocol.onStop := Protocol.Resolved tt;
     Protocol.onPonderHit := Protocol.Resolved tt;
     Protocol.onQuit := Protocol.Resolved tt |}.

(** A chess library that accepts every position and every move and
    answers a SAN move with itself, a fetch whose abort error carries a
    message, and [main]'s teardown. *)
Definition stubStep : Proxy.Handler -> Proxy.Event
                      -> Proxy.Handler * list Proxy.Effect :=
  Proxy.step (fun _ => None) (fun _ _ => None) (fun _ _ => "") (fun f _ => f)
             (fun _ _ => "") (fun _ _ san => E.Right san) (fun _ => "")
             (Some "The signal has been aborted") Proxy.exitGracefully.

Definition stubRun : Proxy.Handler -> list Proxy.Event
                     -> Proxy.Handler * list Proxy.Effect :=
  Proxy.run (fun _ => None) (fun _ _ => None) (fun _ _ => "") (fun f _ => f)
            (fun _ _ => "") (fun _ _ san => E.Right san) (fun _ => "")
            (Some "The signal has been aborted") Proxy.exitGracefully.

(* ================================================================== *)
(** * Theorems *)
(* ================================================================== *)

Import Grammar.

(* ================================================================== *)
(** ** Ordered choice *)
(* ================================================================== *)

Section Choice.

Context {A : Type}.
Implicit Types (p q : P.Parser A) (s : string).

(** [choice] of two parsers, computed from [reduceRight]: the seed [zero]
    is tried first, then the second parser, then the first. *)
Lemma choice_two_unfold p1 p2 s :
  P.choice [p1; p2] s =
  E.alt (fun _ => p1 s) (E.alt (fun _ => p2 s) (@P._zero A s)).
Proof. reflexivity. Qed.

Lemma choice_cons p ps s :
  P.choice (p :: ps) s = E.alt (fun _ => p s) (P.choice ps s).
Proof. reflexivity. Qed.

End Choice.

(* ================================================================== *)
(** ** Facts about the parser core *)
(* ================================================================== *)

Section ParserCore.

Context {A : Type}.
Implicit Types (p : P.Parser A) (x : string).

(** [.return(f)] of the [Do] builder is [map]; a final [of] in a chain is
    the same parser. *)
Lemma map_is_chain_of {B} p (f : A -> B) x :
  P._map p f x = P._chain p (fun a => P._of (f a)) x.
Proof.
  unfold P._map, P._chain, P._of.
  destruct (p x) as [e | [a rest]]; reflexivity.
Qed.

(** The source's definition of [skipGarbage], as an equation. *)
Lemma skipGarbage_unfold p x :
  skipGarbage p x =
  P._alt p (fun _ => P._chain P.anyChar (always (skipGarbage p))) x.
Proof.
  destruct x as [| c rest]; reflexivity.
Qed.

(** A prefix at whose every offset [p] fails is skipped. *)
Lemma skipGarbage_prefix p (pre x : string) :
  (forall i, i < String.length pre ->
             E.isLeft (p (slice i (pre ++ x))) = true) ->
  skipGarbage p (pre ++ x) = skipGarbage p x.
Proof.
  induction pre as [| c pre IH]; intros Hfail; [reflexivity |].
  cbn [append skipGarbage].
  pose proof (Hfail 0 (Nat.lt_0_succ _)) as H0. cbn in H0.
  destruct (p (String c (pre ++ x))) as [e | r]; [| discriminate].
  cbn [E.alt]. apply IH.
  intros i Hi. apply (Hfail (S i)). cbn. lia.
Qed.

End ParserCore.

(* ================================================================== *)
(** ** The bounds of [many] and [manyTill] are enough *)
(* ================================================================== *)

(** The grammar repeats single-character parsers ([whitespace], [digit],
    [noneOf ...]), all of them instances of [satisfy].  For these the
    bounds chosen in [many] and [manyTill] are never reached: [many]
    always returns, and [manyTill] gives the same answer under any larger
    bound. *)
Section Bounds.

Variable desc : string.
Variable pred : ascii -> bool.

Lemma many_loop_satisfy_returns (x : string) :
  forall fuel acc,
    String.length x <= fuel ->
    E.isRight (P.many_loop fuel (P.satisfy desc pred) acc x
                 (P.satisfy desc pred x)) = true.
Proof.
  induction x as [| c rest IH]; intros fuel acc Hfuel.
  - destruct fuel; reflexivity.
  - cbn [P.satisfy]. destruct (pred c).
    + destruct fuel as [| fuel]; [cbn in Hfuel; lia |].
      cbn [P.many_loop String.length Nat.ltb Nat.leb].
      apply IH. cbn in Hfuel. lia.
    + destruct fuel; reflexivity.
Qed.

Lemma many_satisfy_returns (x : string) :
  E.isRight (P.many (P.satisfy desc pred) x) = true.
Proof.
  unfold P.many. apply many_loop_satisfy_returns. apply Nat.le_refl.
Qed.

Lemma scan_satisfy_bound {B} (endp : P.Parser B) (x : string) :
  forall f1 f2,
    String.length x < f1 -> String.length x < f2 ->
    P.scan f1 endp (P.satisfy desc pred) x
    = P.scan f2 endp (P.satisfy desc pred) x.
Proof.
  induction x as [| c rest IH]; intros f1 f2 H1 H2;
    (destruct f1 as [| f1]; [cbn in H1; lia |]);
    (destruct f2 as [| f2]; [cbn in H2; lia |]);
    cbn [P.scan]; unfold P._alt, P._chain; cbn [P.satisfy].
  - reflexivity.
  - destruct (pred c); [| reflexivity].
    cbn [E.chain]. rewrite (IH f1 f2) by (cbn in H1, H2; lia).
    reflexivity.
Qed.

Lemma manyTill_satisfy_bound {B} (endp : P.Parser B) (x : string) fuel :
  String.length x < fuel ->
  P.manyTill endp (P.satisfy desc pred) x
  = P.scan fuel endp (P.satisfy desc pred) x.
Proof.
  intros H. unfold P.manyTill. apply scan_satisfy_bound; [lia | exact H].
Qed.

End Bounds.

(* ================================================================== *)
(** ** Doubles *)
(* ================================================================== *)

Section Doubles.

Lemma Qred_int (z : Z) : Qred (inject_Z z) = inject_Z z.
Proof.
  unfold Qred, inject_Z.
  pose proof (Z.ggcd_gcd z 1) as Hg.
  pose proof (Z.ggcd_correct_divisors z 1) as Hd.
  destruct (Z.ggcd z 1) as [g [a b]]. cbn [fst snd] in *.
  rewrite Z.gcd_1_r in Hg. subst g. destruct Hd as [Ha Hb].
  rewrite Z.mul_1_l in Ha, Hb. subst a b. reflexivity.
Qed.

Lemma roundHalfEven_int (x : Q) (z : Z) :
  (x == inject_Z z)%Q -> roundHalfEven x = z.
Proof.
  intros H. unfold roundHalfEven.
  rewrite (Qfloor_comp _ _ H), Qfloor_Z.
  assert (Hc : (x - inject_Z z ?= 1 # 2)%Q = Lt).
  { apply Qlt_alt. rewrite H.
    assert (H0 : (inject_Z z - inject_Z z == 0)%Q) by ring.
    rewrite H0. reflexivity. }
  rewrite Hc. reflexivity.
Qed.

Lemma pow2_inject (e : Z) : (0 <= e)%Z -> (2 ^ e == inject_Z (2 ^ e))%Q.
Proof. intros H. symmetry. apply (Zpower_Qpower 2 e H). Qed.

(** A positive integer below [2^53] is a double: rounding leaves it as it
    is. *)
Lemma roundDouble_small (z : Z) :
  (0 < z < 2 ^ 53)%Z -> roundDouble (inject_Z z) = Num (inject_Z z).
Proof.
  intros [Hpos Hlt]. unfold roundDouble.
  assert (H0 : Qeq_bool (inject_Z z) 0 = false).
  { apply not_true_is_false. intros E.
    apply Qeq_bool_eq in E. unfold Qeq in E. cbn in E. lia. }
  rewrite H0.
  assert (Hneg : Qle_bool (inject_Z z) 0 = false).
  { apply not_true_is_false. intros E.
    apply Qle_bool_imp_le in E. unfold Qle in E. cbn in E. lia. }
  rewrite Hneg.
  assert (Habs : Qabs (inject_Z z) = inject_Z z).
  { unfold Qabs, inject_Z. rewrite Z.abs_eq by lia. reflexivity. }
  rewrite Habs.
  pose proof (Z.log2_nonneg z) as Hl0.
  assert (Hl : (Z.log2 z < 53)%Z) by (apply Z.log2_lt_pow2; lia).
  destruct (Z.log2_spec z Hpos) as [Hlo _].
  assert (He : binaryExponent (inject_Z z) = Z.log2 z).
  { unfold binaryExponent.
    change (Qnum (inject_Z z)) with z.
    change (Z.log2 (Z.pos (Qden (inject_Z z)))) with 0%Z.
    rewrite Z.sub_0_r.
    assert (Hle : Qle_bool (2 ^ Z.log2 z)%Q (inject_Z z) = true).
    { apply Qle_bool_iff. rewrite (pow2_inject _ Hl0).
      rewrite <- Zle_Qle. exact Hlo. }
    rewrite Hle. reflexivity. }
  rewrite He. rewrite Z.max_l by lia.
  set (k := (52 - Z.log2 z)%Z).
  assert (Hk : (0 <= k)%Z) by (unfold k; lia).
  assert (Hulp : (2 ^ (Z.log2 z - 52) == / inject_Z (2 ^ k))%Q).
  { replace (Z.log2 z - 52)%Z with (- k)%Z by (unfold k; lia).
    rewrite Qpower_opp, (pow2_inject k Hk). reflexivity. }
  assert (Hk2 : (0 < 2 ^ k)%Z) by (apply Z.pow_pos_nonneg; lia).
  assert (Hnz : ~ (inject_Z (2 ^ k) == 0)%Q).
  { intros H. unfold Qeq, inject_Z in H. cbn [Qnum Qden] in H. lia. }
  assert (Hq : (inject_Z z / 2 ^ (Z.log2 z - 52) == inject_Z (z * 2 ^ k))%Q).
  { rewrite Hulp, inject_Z_mult. field. exact Hnz. }
  rewrite (roundHalfEven_int _ _ Hq).
  assert (Hv : (inject_Z (z * 2 ^ k) * 2 ^ (Z.log2 z - 52) == inject_Z z)%Q).
  { rewrite Hulp, inject_Z_mult. field. exact Hnz. }
  assert (Hfin : Qle_bool (2 ^ 1024)%Q
                   (inject_Z (z * 2 ^ k) * 2 ^ (Z.log2 z - 52))%Q = false).
  { apply not_true_is_false. intros E.
    apply Qle_bool_imp_le in E. rewrite Hv in E.
    rewrite (pow2_inject 1024) in E by lia. rewrite <- Zle_Qle in E.
    assert ((2 ^ 53 < 2 ^ 1024)%Z) by (apply Z.pow_lt_mono_r; lia). lia. }
  rewrite Hfin. f_equal.
  rewrite (Qred_complete _ _ Hv). apply Qred_int.
Qed.

Lemma digit_value_range (c : ascii) :
  isDigit c = true -> (0 <= digitValue c <= 9)%Z.
Proof.
  unfold isDigit. cbn [includes]. intros H.
  repeat (apply orb_prop in H as [H | H];
          [apply Ascii.eqb_eq in H; subst c; vm_compute; split; discriminate |]).
  discriminate H.
Qed.

Lemma digitsValue_nonneg (ds : string) :
  allDigits ds = true ->
  forall acc, (0 <= acc)%Z -> (0 <= digitsValue acc ds)%Z.
Proof.
  induction ds as [| c ds IH]; intros Hds acc Hacc; [exact Hacc |].
  cbn [allDigits] in Hds. apply andb_prop in Hds as [Hc Hds].
  cbn [digitsValue]. apply (IH Hds).
  pose proof (digit_value_range c Hc). lia.
Qed.

(** Below [2^53] the value [natural] yields for a digit run is the decimal
    value of the run. *)
Lemma toNumber_exact (ds : string) :
  allDigits ds = true ->
  (digitsValue 0 ds < 2 ^ 53)%Z -> toNumber ds = ofInt (digitsValue 0 ds).
Proof.
  intros Hds Hlt. unfold toNumber, ofInt.
  pose proof (digitsValue_nonneg ds Hds 0 (Z.le_refl 0)) as H0.
  destruct (Z.eq_dec (digitsValue 0 ds) 0) as [-> | Hne]; [reflexivity |].
  apply roundDouble_small. lia.
Qed.

End Doubles.

(* ================================================================== *)
(** ** Digit runs and the numeric parsers *)
(* ================================================================== *)

Section Digits.

Lemma digit_accepts c rest :
  isDigit c = true -> P.digit (String c rest) = E.Right (chr c, rest).
Proof.
  intros H. unfold P.digit, P.oneOf, P.satisfy. fold (isDigit c).
  rewrite H. reflexivity.
Qed.

Lemma digit_rejects x :
  startsWithDigit x = false -> exists e, P.digit x = E.Left e.
Proof.
  destruct x as [| c rest]; cbn [startsWithDigit]; intros H.
  - eexists. reflexivity.
  - unfold P.digit, P.oneOf, P.satisfy. fold (isDigit c). rewrite H.
    eexists. reflexivity.
Qed.

Lemma length_append_le (a b : string) :
  String.length a <= String.length (a ++ b).
Proof.
  induction a as [| c a IH]; cbn; lia.
Qed.

Lemma append_nil_r (s : string) : s ++ "" = s.
Proof. induction s as [| c s IH]; cbn; [reflexivity | now rewrite IH]. Qed.

Lemma append_assoc (a b c : string) : (a ++ b) ++ c = a ++ b ++ c.
Proof. induction a as [| d a IH]; cbn; [reflexivity | now rewrite IH]. Qed.

Lemma join_empty_cons (x : string) (xs : list string) :
  join "" (x :: xs) = x ++ join "" xs.
Proof.
  destruct xs as [| y ys]; cbn [join].
  - induction x as [| c x IH]; cbn; [reflexivity | now f_equal].
  - reflexivity.
Qed.

Lemma join_chars (x : string) : join "" (chars x) = x.
Proof.
  induction x as [| c x IH]; [reflexivity |].
  cbn [chars]. rewrite join_empty_cons, IH. reflexivity.
Qed.

(** The loop of [many digit] over a digit run: it takes the whole run and
    stops at what follows. *)
Lemma many_loop_digits (ds r : string) :
  allDigits ds = true -> startsWithDigit r = false ->
  forall fuel acc,
    String.length ds <= fuel ->
    P.many_loop fuel P.digit acc (ds ++ r) (P.digit (ds ++ r)) =
    E.Right ((acc ++ chars ds)%list, r).
Proof.
  intros Hds Hr. induction ds as [| c ds IH]; intros fuel acc Hfuel.
  - cbn [append chars]. rewrite app_nil_r.
    destruct (digit_rejects r Hr) as [e ->].
    destruct fuel; reflexivity.
  - cbn [allDigits] in Hds. apply andb_prop in Hds as [Hc Hds].
    cbn [append]. rewrite (digit_accepts c _ Hc).
    destruct fuel as [| fuel]; [cbn in Hfuel; lia |].
    cbn [P.many_loop String.length Nat.ltb Nat.leb].
    rewrite (IH Hds fuel (acc ++ [chr c])%list) by (cbn in Hfuel; lia).
    cbn [chars]. rewrite <- app_assoc. reflexivity.
Qed.

Lemma many_digits (ds r : string) :
  allDigits ds = true -> startsWithDigit r = false ->
  P.many P.digit (ds ++ r) = E.Right (chars ds, r).
Proof.
  intros Hds Hr. unfold P.many.
  rewrite (many_loop_digits ds r Hds Hr _ []) by apply length_append_le.
  reflexivity.
Qed.

(** [natural] reads a non-empty digit run up to the first character that
    is not a digit, and yields the double nearest to its decimal value. *)
Lemma natural_digits (ds r : string) :
  allDigits ds = true -> ds <> "" -> startsWithDigit r = false ->
  natural (ds ++ r) = E.Right (toNumber ds, r).
Proof.
  intros Hds Hne Hr. destruct ds as [| c ds]; [congruence |].
  cbn [allDigits] in Hds. apply andb_prop in Hds as [Hc Hds].
  unfold natural, P.expected, P._map, P.flat, P._map, P.many1.
  cbn [append]. rewrite (digit_accepts c _ Hc). cbn [E.chain].
  rewrite (many_digits ds r Hds Hr). cbn [E.chain E.map E.mapLeft].
  change (chr c :: chars ds) with (chars (String c ds)).
  rewrite join_chars. reflexivity.
Qed.

Lemma digit_not_sign c : isDigit c = true -> includes "-+" c = false.
Proof.
  intros H. destruct (includes "-+" c) eqn:E; [| reflexivity].
  cbn in E. rewrite orb_false_r in E.
  apply orb_prop in E as [E | E]; apply Ascii.eqb_eq in E; subst c;
    discriminate H.
Qed.

(** [int]: an optional sign and a digit run. *)
Lemma int_digits (sg ds r : string) :
  sg = "" \/ sg = "+" \/ sg = "-" ->
  allDigits ds = true -> ds <> "" -> startsWithDigit r = false ->
  int (sg ++ ds ++ r) = E.Right (applySign sg (toNumber ds), r).
Proof.
  intros Hsg Hds Hne Hr.
  pose proof (natural_digits ds r Hds Hne Hr) as Hnat.
  unfold int, P.expected, P._chain, P.option, P._alt, P._of, applySign.
  destruct Hsg as [-> | [-> | ->]]; cbn [append].
  - destruct ds as [| c ds]; [congruence |].
    cbn [allDigits] in Hds. apply andb_prop in Hds as [Hc _].
    cbn [append] in *. unfold P.oneOf, P.satisfy.
    rewrite (digit_not_sign c Hc). cbn [E.alt E.chain].
    rewrite Hnat. reflexivity.
  - cbn. rewrite Hnat. reflexivity.
  - cbn. rewrite Hnat. reflexivity.
Qed.

End Digits.

(* ================================================================== *)
(** ** The claims about the parser and the grammar *)
(* ================================================================== *)

(** [choice] of two parsers answers with the second one's success whenever
    it has one; the first parser is consulted only when the second fails. *)
Lemma choice_two_last_wins {A} (p1 p2 : P.Parser A) (s : string) :
  P.choice [p1; p2] s =
  match p2 s with
  | E.Right r => E.Right r
  | E.Left _ => p1 s
  end.
Proof.
  rewrite choice_two_unfold. cbn [P._zero E.alt].
  destruct (p2 s); reflexivity.
Qed.

(** In a longer list, too, the alternative listed last is tried before
    all the others. *)
Lemma choice_snoc_first {A} (p : P.Parser A) (ps : list (P.Parser A))
    (q : P.Parser A) s :
  P.choice (p :: ps ++ [q]) s =
  match q s with
  | E.Right r => E.Right r
  | E.Left _ => P.choice (p :: ps) s
  end.
Proof.
  revert p. induction ps as [| p' ps IH]; intros p.
  - unfold P.choice. cbn [app reduceRight]. unfold P._alt, P._zero.
    cbn [E.alt]. destruct (q s); reflexivity.
  - cbn [app]. rewrite (choice_cons p (p' :: ps ++ [q])), IH.
    rewrite (choice_cons p (p' :: ps)).
    destruct (q s); reflexivity.
Qed.

(** C1, evaluated on the code: with [p1 = str "a"] and [p2 = str "ab"]
    both succeeding on the input "ab", [choice(p1, p2)] returns the result
    of [p2] (value "ab", nothing left), not the result of [p1] (value "a",
    "b" left): the alternative listed last wins. *)
Theorem choice_returns_last_listed_success :
  P.str "a" "ab" = E.Right ("a", "b") /\
  P.str "ab" "ab" = E.Right ("ab", "") /\
  P.choice [P.str "a"; P.str "ab"] "ab" = E.Right ("ab", "").
Proof. repeat split; reflexivity. Qed.

(** The same order inside the grammar: [numeric = choice(floating, natural)]
    reads "1.5" with [natural] and leaves ".5". *)
Example numeric_reads_natural_first :
  numeric "1.5" = E.Right (Num (inject_Z 1), ".5").
Proof. reflexivity. Qed.

(** C2 (garbage tolerance): when the full command grammar fails at every
    offset inside the prefix [pre] and the text [cmd] alone parses to the
    command [c], the line [pre ++ cmd] parses to the same [c]. *)
Theorem garbage_tolerance (pre cmd : string) (c : UCIEngineCommand.t) :
  (forall i, i < String.length pre ->
             E.isLeft (uciEngineCmdEOF (slice i (pre ++ cmd))) = true) ->
  parseUCIEngineCmd cmd = E.Right c ->
  parseUCIEngineCmd (pre ++ cmd) = E.Right c.
Proof.
  intros Hnoise Hcmd. unfold parseUCIEngineCmd, P.expected in *.
  rewrite (skipGarbage_prefix uciEngineCmdEOF pre cmd Hnoise).
  exact Hcmd.
Qed.

(** The spec's example: "xyz123 isready" parses as "isready" does. *)
Lemma garbage_tolerance_witness :
  parseUCIEngineCmd "isready" = E.Right UCIEngineCommand.IsReady /\
  parseUCIEngineCmd "xyz123 isready" = E.Right UCIEngineCommand.IsReady.
Proof.
  split; [reflexivity |].
  apply (garbage_tolerance "xyz123 " "isready" UCIEngineCommand.IsReady).
  - intros i Hi.
    do 7 (destruct i as [| i]; [reflexivity |]).
    cbn in Hi. lia.
  - reflexivity.
Defined.

(** C3, evaluated on the code: "debug on" and "debug" parse as the
    grammar surface says, but "debug off" is rejected; the keyword the
    [off] parser matches is "false". *)
Theorem debug_off_is_rejected :
  parseUCIEngineCmd "debug on"
    = E.Right (UCIEngineCommand.Debug (Some true)) /\
  parseUCIEngineCmd "debug" = E.Right (UCIEngineCommand.Debug None) /\
  parseUCIEngineCmd "debug off"
    = E.Left "Expected proper command eventually but: Expected anything but got EOF" /\
  parseUCIEngineCmd "debug false"
    = E.Right (UCIEngineCommand.Debug (Some false)).
Proof. repeat split; vm_compute; reflexivity. Qed.

(** C4, evaluated on the code: a [setoption] line with no value clause is
    rejected, the same line with a value clause parses to name and value. *)
Theorem setoption_requires_value :
  parseUCIEngineCmd "setoption name Hash"
    = E.Left "Expected proper command eventually but: Expected anything but got EOF" /\
  parseUCIEngineCmd "setoption name Hash value 128"
    = E.Right (UCIEngineCommand.SetOption "Hash" (Some "128")).
Proof. split; vm_compute; reflexivity. Qed.

(** The value clause is what [uciSetOptionCmd] stops at: the id is read,
    then [uciSetOptionValue] is required. *)
Example setoption_cmd_needs_value_clause :
  uciSetOptionId "name Hash" = E.Right ("Hash", "") /\
  E.isLeft (uciSetOptionCmd "setoption name Hash") = true.
Proof. split; vm_compute; reflexivity. Qed.

(** C9: "go depth 12 movetime 500" parses to [Go] with the parameter list
    [Depth 12; MoveTime 500], in that order. *)
Theorem go_depth_movetime_parses :
  parseUCIEngineCmd "go depth 12 movetime 500"
  = E.Right
      (UCIEngineCommand.Go
         [UCIGoParameter.Depth (ofInt 12); UCIGoParameter.MoveTime (ofInt 500)]).
Proof. vm_compute. reflexivity. Qed.

(** C10: on an optional sign, a non-empty digit run, a ['.'] and a
    non-empty digit run, [floating] succeeds, stops at the first character
    that is no digit, and returns [parseFloat] of the text made of the
    integer part's value printed, ['.'], and the fractional run's value
    printed, that value being read as an unsigned natural number. *)
Theorem floating_textual_concat (sg ip fp rest : string) :
  sg = "" \/ sg = "+" \/ sg = "-" ->
  allDigits ip = true -> ip <> "" ->
  allDigits fp = true -> fp <> "" ->
  startsWithDigit rest = false ->
  floating (sg ++ ip ++ "." ++ fp ++ rest) =
  E.Right
    (parseFloat (numToString (applySign sg (toNumber ip))
                 ++ "." ++ numToString (toNumber fp)),
     rest).
Proof.
  intros Hsg Hip Hipne Hfp Hfpne Hrest.
  unfold floating, P.expected, P._chain, P._of.
  rewrite (int_digits sg ip ("." ++ fp ++ rest) Hsg Hip Hipne eq_refl).
  cbn [E.chain append]. unfold P.char, P.satisfy. cbn [Ascii.eqb Bool.eqb].
  cbn [E.chain].
  rewrite (natural_digits fp rest Hfp Hfpne Hrest).
  reflexivity.
Qed.

(** The spec's example: "-1.5" is read from the text "-1.5". *)
Lemma floating_textual_concat_witness :
  floating "-1.5" = E.Right (parseFloat "-1.5", "") /\
  parseFloat "-1.5" = Num (-3 # 2)%Q.
Proof.
  split; [| vm_compute; reflexivity].
  exact (floating_textual_concat "-" "1" "5" ""
           (or_intror (or_intror eq_refl)) eq_refl
           ltac:(discriminate) eq_refl ltac:(discriminate) eq_refl).
Defined.

(** The fractional run goes through its numeric value: its leading zeros
    are lost ("1.05" is read from "1.5"), and so is the sign of a zero
    integer part ("-0.5" is read from "0.5"). *)
Example floating_is_not_algebraic :
  floating "1.05" = E.Right (Num (3 # 2)%Q, "") /\
  floating "-0.5" = E.Right (Num (1 # 2)%Q, "").
Proof. split; vm_compute; reflexivity. Qed.

(** Both runs go through doubles and their printed form: a fractional run
    of value [10^21] is printed as "1e+21", so that "1." followed by it is
    read from "1.1e+21"; an integer part beyond [2^53] is rounded before
    it is printed; and a run too long for a double is printed as
    "Infinity". *)
Example floating_prints_doubles :
  floating "1.1000000000000000000000"
    = E.Right (ofInt 1100000000000000000000, "") /\
  floating "9007199254740993.5"
    = E.Right (ofInt 9007199254740992, "") /\
  numToString (toNumber "1152921504606846976") = "1152921504606847000" /\
  floating ("1" ++ zeros 309 ++ ".5") = E.Right (Infinity false, "").
Proof. repeat split; vm_compute; reflexivity. Qed.

(* ================================================================== *)
(** ** The protocol handler and the serializer *)
(* ================================================================== *)

Section ProtocolFacts.

Import Protocol.

Variable showNumber : number -> string.

Lemma serialize_id_name (n : string) :
  serializeGUICmd showNumber (UCIGUICommand.Id (UCIId.Name n)) = "id name " ++ n.
Proof. reflexivity. Qed.

Lemma serialize_id_author (a : string) :
  serializeGUICmd showNumber (UCIGUICommand.Id (UCIId.Author a))
  = "id author " ++ a.
Proof. reflexivity. Qed.

(** The serializer lays an option out as the option line. *)
Lemma serialize_option (o : UCIOption.t) :
  serializeGUICmd showNumber (UCIGUICommand.Option o) = optionLine o.
Proof.
  unfold serializeGUICmd, serializeTokens, optionLine.
  cbn [tokenizeGUICmd]. unfold tokenizeOption.
  destruct o as [n k d mn mx v].
  cbn [UCIOption.name UCIOption.type UCIOption.default UCIOption.min
       UCIOption.max UCIOption.var].
  assert (Hk : toLowerCase k = kindKeyword k) by (destruct k; reflexivity).
  rewrite Hk. generalize (kindKeyword k) as kw. intros kw.
  destruct d as [[| c0 r0] |], mn as [[| c1 r1] |], mx as [[| c2 r2] |],
           v as [[| c3 r3] |];
    cbn [optionalField truthy String.eqb negb optionField app join];
    rewrite ?append_nil_r; cbn [append]; f_equal;
    try (rewrite ?append_assoc; reflexivity).
Qed.

Lemma parse_uci : parseUCIEngineCmd "uci" = E.Right UCIEngineCommand.UCI.
Proof. vm_compute. reflexivity. Qed.

(** C8: when [onInit] resolves with [{name, author, options}], dispatching
    [Uci] resolves with [Id name], [Id author], one [Option] per advertised
    option in order, then [UCIOk]; these serialize to the lines
    "id name <name>", "id author <author>", the option lines and "uciok" in
    that order, and the line "uci" makes [handleLine] write exactly them
    to the output stream, with or without an error stream. *)
Theorem uci_response_sequence {S : Type} (error : bool) (h : UCIHandler S)
    (s s' : S) (r : InitResult) :
  onInit h s = Resolved r s' ->
  protocolHandler h UCIEngineCommand.UCI s = Resolved (uciResponses r) s'
  /\ map (serializeGUICmd showNumber) (uciResponses r) = uciLines r
  /\ handleLine showNumber error h "uci" s
     = (ToOutput (withLine (join (chr LF) (uciLines r))), s').
Proof.
  intros Hinit.
  assert (Hser : map (serializeGUICmd showNumber) (uciResponses r) = uciLines r).
  { unfold uciResponses, uciLines. cbn [app map].
    rewrite serialize_id_name, serialize_id_author.
    do 2 f_equal. rewrite map_app, map_map. cbn [map].
    f_equal. apply map_ext. exact serialize_option. }
  assert (Hdisp :
    protocolHandler h UCIEngineCommand.UCI s = Resolved (uciResponses r) s').
  { unfold protocolHandler, then_. rewrite Hinit. reflexivity. }
  repeat split; [exact Hdisp | exact Hser |].
  unfold handleLine, wrapStrErr. rewrite parse_uci, Hdisp.
  cbn [E.map informResult writeP]. rewrite Hser. reflexivity.
Qed.

End ProtocolFacts.

(** A handler that advertises a spin with its bounds, a check, and a
    button whose default is the empty text: the line "uci" yields the
    identity, the three option lines and "uciok". *)
Lemma uci_response_sequence_witness :
  Protocol.handleLine (fun _ => "") false advertisingHandler "uci" tt
  = (Protocol.ToOutput
       ("id name X" ++ chr LF ++ "id author Y" ++ chr LF
        ++ "option name Hash type spin default 16 min 1 max 128" ++ chr LF
        ++ "option name Ponder type check default false" ++ chr LF
        ++ "option name Clear Hash type button" ++ chr LF
        ++ "uciok" ++ chr LF),
     tt).
Proof.
  exact (proj2 (proj2
    (uci_response_sequence (fun _ => "") false advertisingHandler tt tt
       {| Protocol.name := "X"; Protocol.author := "Y";
          Protocol.options := advertised |} eq_refl))).
Defined.

(** The spec's end-to-end scenario: with no option advertised, the line
    "uci" yields the lines "id name X", "id author Y", "uciok". *)
Example uci_scenario :
  Protocol.handleLine (fun _ => "") true stubHandler "uci" tt
  = (Protocol.ToOutput
       ("id name X" ++ chr LF ++ "id author Y" ++ chr LF ++ "uciok" ++ chr LF),
     tt).
Proof. vm_compute. reflexivity. Qed.

(* ================================================================== *)
(** ** The proxy handler: cancellation and teardown *)
(* ================================================================== *)

Section ProxyFacts.

Import Proxy.

Variable chess_load : string -> option Thrown.
Variable chess_replay : string -> list string -> option Thrown.
Variable chess_ascii : string -> list string -> string.
Variable chess_fen : string -> list string -> string.
Variable chess_moves : string -> list string -> string.
Variable chess_san : string -> list string -> string -> E.Either Thrown string.
Variable JSON_stringify : list string -> string.
Variable abortError : Thrown.
Variable onQuit_ : Task.

Local Abbreviation step :=
  (Proxy.step chess_load chess_replay chess_ascii chess_fen chess_moves
              chess_san JSON_stringify abortError onQuit_).
Local Abbreviation run :=
  (Proxy.run chess_load chess_replay chess_ascii chess_fen chess_moves
             chess_san JSON_stringify abortError onQuit_).
Local Abbreviation onGo :=
  (Proxy.onGo chess_load chess_replay chess_ascii chess_fen chess_moves
              JSON_stringify abortError).
Local Abbreviation loadBoard :=
  (Proxy.loadBoard chess_replay chess_moves JSON_stringify).

(** Case analysis on every [match] of a step. *)
Ltac step_cases :=
  repeat match goal with
         | |- context [match ?x with _ => _ end] => destruct x eqn:?
         end.

Lemma caught_quiet err : isQuiet (caught err) = true.
Proof. destruct err; reflexivity. Qed.

Lemma loadBoard_quiet st : Forall (fun e => isQuiet e = true) (loadBoard st).
Proof.
  unfold Proxy.loadBoard. step_cases; repeat constructor.
Qed.

Lemma quiet_no_response out :
  Forall (fun e => isQuiet e = true) out ->
  Forall (fun e => isResponse e = false) out.
Proof.
  apply Forall_impl. intros e H. unfold isQuiet in H.
  apply andb_prop in H as [_ H]. now apply negb_true_iff in H.
Qed.

(** Effect lists built from diagnostics are quiet. *)
Ltac quiet_list :=
  repeat first
    [ apply Forall_nil
    | apply loadBoard_quiet
    | apply Forall_cons; [first [reflexivity | apply caught_quiet] |]
    | apply Forall_app; split ].

(** No method assigns the abort controller: an aborted signal stays
    aborted through every step. *)
Lemma step_keeps_aborted st ev :
  aborted st = true -> aborted (fst (step st ev)) = true.
Proof.
  intros H. unfold Proxy.step, Proxy.onGo, Proxy.onStop, Proxy.onQuit,
    Proxy.onResponse.
  step_cases; cbn; auto; congruence.
Qed.

Lemma run_keeps_aborted evs : forall st,
  aborted st = true -> aborted (fst (run st evs)) = true.
Proof.
  induction evs as [| ev evs IH]; intros st H; [exact H |].
  cbn [Proxy.run].
  pose proof (step_keeps_aborted st ev H) as H1.
  destruct (step st ev) as [st1 out1]. cbn [fst] in H1.
  specialize (IH st1 H1).
  destruct (run st1 evs) as [st2 out2]. exact IH.
Qed.

(** [Stop] aborts the signal of a live handler. *)
Lemma stop_aborts st :
  exited st = None -> aborted (fst (step st OnStop)) = true.
Proof.
  intros H. unfold Proxy.step, Proxy.onStop. rewrite H.
  step_cases; reflexivity.
Qed.

(** Under an aborted signal no step makes a request pending. *)
Lemma step_keeps_not_pending st ev :
  aborted st = true -> robotRequest st <> Some Pending ->
  robotRequest (fst (step st ev)) <> Some Pending.
Proof.
  intros Ha Hp. unfold Proxy.step, Proxy.onGo, Proxy.onStop, Proxy.onQuit,
    Proxy.onResponse.
  step_cases; cbn; try congruence.
Qed.

Lemma run_keeps_not_pending evs : forall st,
  aborted st = true -> robotRequest st <> Some Pending ->
  robotRequest (fst (run st evs)) <> Some Pending.
Proof.
  induction evs as [| ev evs IH]; intros st Ha Hp; [exact Hp |].
  cbn [Proxy.run].
  pose proof (step_keeps_aborted st ev Ha) as Ha1.
  pose proof (step_keeps_not_pending st ev Ha Hp) as Hp1.
  destruct (step st ev) as [st1 out1]. cbn [fst] in Ha1, Hp1.
  specialize (IH st1 Ha1 Hp1).
  destruct (run st1 evs) as [st2 out2]. exact IH.
Qed.

(** Under an aborted signal a [Go] sends nothing to the robot and emits
    no response. *)
Lemma go_quiet_when_aborted st params :
  aborted st = true ->
  Forall (fun e => isQuiet e = true) (snd (step st (OnGo params))).
Proof.
  intros Ha. unfold Proxy.step, Proxy.onGo. rewrite Ha.
  step_cases; cbn [snd]; quiet_list.
Qed.

Lemma runSync_quiet (t : Task) : Forall (fun e => isQuiet e = true) (runSync t).
Proof.
  induction t as [| action k IH | k IH | code]; cbn [runSync];
    repeat constructor; assumption.
Qed.

(** Under an aborted signal and with no search in flight, a step leaves no
    search in flight and is quiet. *)
Lemma step_idle_when_aborted st ev :
  aborted st = true -> robotRequest st = None ->
  robotRequest (fst (step st ev)) = None /\
  Forall (fun e => isQuiet e = true) (snd (step st ev)).
Proof.
  intros Ha Hr. unfold Proxy.step, Proxy.onGo, Proxy.onStop, Proxy.onQuit,
    Proxy.onResponse. rewrite Ha, Hr.
  step_cases; cbn [fst snd]; (split; [cbn; congruence |]); quiet_list;
    apply runSync_quiet.
Qed.

Lemma run_idle_when_aborted evs : forall st,
  aborted st = true -> robotRequest st = None ->
  robotRequest (fst (run st evs)) = None /\
  Forall (fun e => isQuiet e = true) (snd (run st evs)).
Proof.
  induction evs as [| ev evs IH]; intros st Ha Hr.
  - split; [exact Hr | constructor].
  - cbn [Proxy.run].
    pose proof (step_keeps_aborted st ev Ha) as Ha1.
    destruct (step_idle_when_aborted st ev Ha Hr) as [Hr1 Hq1].
    destruct (step st ev) as [st1 out1]. cbn [fst snd] in Ha1, Hr1, Hq1.
    destruct (IH st1 Ha1 Hr1) as [Hr2 Hq2].
    destruct (run st1 evs) as [st2 out2]. cbn [fst snd] in *.
    split; [exact Hr2 | apply Forall_app; split; assumption].
Qed.

Lemma stop_not_pending st :
  exited st = None ->
  robotRequest (fst (step st OnStop)) <> Some Pending.
Proof.
  intros Hlive. unfold Proxy.step, Proxy.onStop. rewrite Hlive.
  step_cases; cbn; congruence.
Qed.

(** C5: the abort signal is the constructor's and nothing replaces it, so
    after a [Stop] on a live handler the signal is aborted and stays so
    through every later event; every [Go] dispatched from then on sends
    no request to the robot, leaves no request pending and emits no
    response; and when no already answered search was still being written
    out at the [Stop], no response at all is emitted afterwards. *)
Theorem stop_rejects_every_later_go (st0 : Handler) (evs : list Event)
    (params : list UCIGoParameter.t) :
  exited st0 = None ->
  let st1 := fst (step st0 OnStop) in
  let st2 := fst (run st1 evs) in
  aborted st1 = true /\
  aborted st2 = true /\
  Forall (fun e => isQuiet e = true) (snd (step st2 (OnGo params))) /\
  robotRequest (fst (step st2 (OnGo params))) <> Some Pending /\
  (robotRequest st1 = None ->
   Forall (fun e => isResponse e = false) (snd (run st1 evs))).
Proof.
  intros Hlive st1 st2.
  assert (Ha1 : aborted st1 = true) by (apply stop_aborts; exact Hlive).
  assert (Ha2 : aborted st2 = true) by (apply run_keeps_aborted; exact Ha1).
  assert (Hp2 : robotRequest st2 <> Some Pending).
  { apply run_keeps_not_pending;
      [exact Ha1 | apply stop_not_pending; exact Hlive]. }
  repeat split.
  - exact Ha1.
  - exact Ha2.
  - apply go_quiet_when_aborted. exact Ha2.
  - apply step_keeps_not_pending; assumption.
  - intros Hidle. apply quiet_no_response.
    apply run_idle_when_aborted; assumption.
Qed.

(** C6: a [Stop] dispatched while a search is pending clears the in-flight
    slot and emits diagnostics only, and whatever happens afterwards, the
    robot's late answer included, emits no response; a search that fails
    on its own clears the slot and emits diagnostics only as well. *)
Theorem stop_cancels_pending_search (st : Handler) (evs : list Event)
    (err : Thrown) :
  exited st = None ->
  robotRequest st = Some Pending ->
  robotRequest (fst (step st OnStop)) = None /\
  Forall (fun e => isQuiet e = true) (snd (step st OnStop)) /\
  Forall (fun e => isResponse e = false)
         (snd (run (fst (step st OnStop)) evs)) /\
  robotRequest (fst (step st (RobotFailed err))) = None /\
  Forall (fun e => isQuiet e = true) (snd (step st (RobotFailed err))).
Proof.
  intros Hlive Hpending.
  assert (Hstop : step st OnStop
                  = (setRequest None (abort st),
                     [LogDebug "Received a stop command, aborting robot...";
                      caught abortError])).
  { unfold Proxy.step, Proxy.onStop. rewrite Hlive, Hpending. reflexivity. }
  assert (Hfail : step st (RobotFailed err)
                  = (setRequest None st, [caught err])).
  { unfold Proxy.step. rewrite Hlive, Hpending. reflexivity. }
  rewrite Hstop, Hfail. cbn [fst snd].
  repeat split.
  - quiet_list.
  - apply quiet_no_response. apply run_idle_when_aborted; reflexivity.
  - quiet_list.
Qed.

(** Awaited or not, the teardown's first run is all that [Quit] waits
    for: a teardown that starts by awaiting contributes nothing. *)
Lemma quit_drops_awaiting_teardown (k : Task) (st : Handler) :
  exited st = None ->
  Proxy.step chess_load chess_replay chess_ascii chess_fen chess_moves
             chess_san JSON_stringify abortError (Await k) st OnQuit
  = (exit 0 st, [ProcessExit 0]).
Proof.
  intros Hlive. unfold Proxy.step, Proxy.onQuit. rewrite Hlive. reflexivity.
Qed.

(** C7, evaluated on the code: with [main]'s teardown, dispatching [Quit]
    to the freshly constructed handler ends the process with code 0 and
    nothing of the teardown has happened, whereas the teardown run to
    its end announces itself, kills the robot's process group, reports
    and exits. *)
Theorem quit_exits_before_teardown :
  Proxy.step chess_load chess_replay chess_ascii chess_fen chess_moves
             chess_san JSON_stringify abortError exitGracefully
             construct OnQuit
  = (exit 0 construct, [ProcessExit 0]) /\
  runToCompletion exitGracefully
  = [Teardown "process.stderr.write: Exiting gracefully...";
     Teardown "process.kill(-robotPid)";
     Teardown "process.stderr.write: Done.";
     ProcessExit 0].
Proof. split; reflexivity. Qed.

End ProxyFacts.

(** A session on the stubs: a search is pending when [Stop] arrives; the
    robot's late answer, a second [Go] and its answer follow.  Nothing
    after the [Stop] is a response. *)
Lemma stop_rejects_every_later_go_witness :
  Proxy.exited (fst (stubRun Proxy.construct [Proxy.OnGo []])) = None /\
  Forall (fun e => Proxy.isResponse e = false)
    (snd (stubRun
            (fst (stubStep (fst (stubRun Proxy.construct [Proxy.OnGo []]))
                           Proxy.OnStop))
            [Proxy.RobotReplied "e4"; Proxy.OnGo []; Proxy.RobotReplied "e5";
             Proxy.Flushed; Proxy.Flushed])).
Proof.
  split; [reflexivity |].
  exact (proj2 (proj2 (proj2 (proj2
    (stop_rejects_every_later_go
       (fun _ => None) (fun _ _ => None) (fun _ _ => "") (fun f _ => f)
       (fun _ _ => "") (fun _ _ san => E.Right san) (fun _ => "")
       (Some "The signal has been aborted") Proxy.exitGracefully
       (fst (stubRun Proxy.construct [Proxy.OnGo []]))
       [Proxy.RobotReplied "e4"; Proxy.OnGo []; Proxy.RobotReplied "e5";
        Proxy.Flushed; Proxy.Flushed]
       [] eq_refl)))) eq_refl).
Defined.

(** The same session, seen from the pending search. *)
Lemma stop_cancels_pending_search_witness :
  Proxy.robotRequest (fst (stubRun Proxy.construct [Proxy.OnGo []]))
  = Some Proxy.Pending /\
  Proxy.robotRequest
    (fst (stubStep (fst (stubRun Proxy.construct [Proxy.OnGo []])) Proxy.OnStop))
  = None /\
  Forall (fun e => Proxy.isResponse e = false)
    (snd (stubRun
            (fst (stubStep (fst (stubRun Proxy.construct [Proxy.OnGo []]))
                           Proxy.OnStop))
            [Proxy.RobotReplied "e4"; Proxy.Flushed; Proxy.Flushed])).
Proof.
  split; [reflexivity |].
  pose proof (stop_cancels_pending_search
       (fun _ => None) (fun _ _ => None) (fun _ _ => "") (fun f _ => f)
       (fun _ _ => "") (fun _ _ san => E.Right san) (fun _ => "")
       (Some "The signal has been aborted") Proxy.exitGracefully
                (fst (stubRun Proxy.construct [Proxy.OnGo []]))
                [Proxy.RobotReplied "e4"; Proxy.Flushed; Proxy.Flushed]
                None eq_refl eq_refl) as H.
  split; [exact (proj1 H) | exact (proj1 (proj2 (proj2 H)))].
Defined.

(** Without the [Stop], the same robot answer is sent on as a best move. *)
Example answered_search_sends_best_move :
  filter Proxy.isBestMove
    (snd (stubRun Proxy.construct
            [Proxy.OnGo []; Proxy.RobotReplied "e4"; Proxy.Flushed;
             Proxy.Flushed]))
  = [Proxy.SendBestMove "e4"].
Proof. reflexivity. Qed.

(* ================================================================== *)
(** * Further properties of the parser core *)
(* ================================================================== *)

Section MoreChoice.

Context {A : Type}.
Implicit Types (p q : P.Parser A) (ps : list (P.Parser A)) (s : string).

Lemma alt_skip {L R} (that : unit -> E.Either L R) (fa : E.Either L R) :
  E.isLeft fa = true -> E.alt that fa = that tt.
Proof. destruct fa; [reflexivity | discriminate]. Qed.

Lemma alt_keep {L R} (that : unit -> E.Either L R) (fa : E.Either L R) :
  E.isRight fa = true -> E.alt that fa = fa.
Proof. destruct fa; [discriminate | reflexivity]. Qed.

(** Alternatives that all fail leave the decision to what is listed
    before them. *)
Lemma choice_failing_tail p ps s :
  Forall (fun q => E.isLeft (q s) = true) ps ->
  P.choice (p :: ps) s = p s.
Proof.
  revert p. induction ps as [| q ps IH]; intros p Hfail.
  - reflexivity.
  - inversion Hfail as [| ? ? Hq Hps]; subst.
    rewrite choice_cons, (IH q Hps). apply alt_skip. exact Hq.
Qed.

Lemma choice_app_success ps q post s :
  E.isRight (q s) = true ->
  Forall (fun r => E.isLeft (r s) = true) post ->
  P.choice (ps ++ q :: post) s = q s.
Proof.
  intros Hq Hpost. induction ps as [| p ps IH].
  - cbn [app]. apply choice_failing_tail. exact Hpost.
  - cbn [app]. rewrite choice_cons, IH. apply alt_keep. exact Hq.
Qed.

(** Among any number of alternatives, the successful one that is listed
    last wins: whatever is listed before it is not consulted. *)
Theorem choice_last_success_wins ps q post s :
  E.isRight (q s) = true ->
  Forall (fun r => E.isLeft (r s) = true) post ->
  P.choice (ps ++ q :: post) s = q s.
Proof. exact (choice_app_success ps q post s). Qed.

(** When every alternative fails, [choice] reports the error of the
    alternative listed first (the one it tries last). *)
Theorem choice_error_is_first_listed p ps s :
  Forall (fun q => E.isLeft (q s) = true) (p :: ps) ->
  P.choice (p :: ps) s = p s /\ E.isLeft (P.choice (p :: ps) s) = true.
Proof.
  intros Hall. inversion Hall as [| ? ? Hp Hps]; subst.
  rewrite (choice_failing_tail p ps s Hps). split; [reflexivity | exact Hp].
Qed.

End MoreChoice.

Lemma choice_last_success_wins_witness :
  P.choice [P.str "a"; P.str "ab"; P.str "abc"; P.str "x"] "abcd"
  = E.Right ("abc", "d").
Proof.
  apply (choice_last_success_wins [P.str "a"; P.str "ab"] (P.str "abc")
           [P.str "x"] "abcd"); [reflexivity | repeat constructor].
Defined.

Lemma choice_error_is_first_listed_witness :
  P.choice [P.str "a"; P.str "b"] "c" = P.str "a" "c" /\
  E.isLeft (P.choice [P.str "a"; P.str "b"] "c") = true.
Proof.
  apply (choice_error_is_first_listed (P.str "a") [P.str "b"] "c").
  repeat constructor.
Defined.

Section MonadLaws.

Context {A B C : Type}.

(** The parser monad: [of] is a left and right unit of [chain], and
    [chain] is associative, on every input. *)
Theorem parser_monad_laws (a : A) (p : P.Parser A) (f : A -> P.Parser B)
    (g : B -> P.Parser C) (x : string) :
  P._chain (P._of a) f x = f a x /\
  P._chain p (fun v => P._of v) x = p x /\
  P._chain (P._chain p f) g x = P._chain p (fun v => P._chain (f v) g) x.
Proof.
  unfold P._chain, P._of. repeat split.
  - destruct (p x) as [e | [v r]]; reflexivity.
  - destruct (p x) as [e | [v r]]; reflexivity.
Qed.

(** Backtracking: when a sequence fails, be it after its first parser
    has consumed input, the alternative starts again from the input the
    sequence was given. *)
Theorem alt_backtracks (p : P.Parser A) (f : A -> P.Parser B)
    (q : P.Parser B) (x : string) (e : P.ParseError) :
  P._chain p f x = E.Left e ->
  P._alt (P._chain p f) (fun _ => q) x = q x.
Proof.
  intros Hp. unfold P._alt. rewrite Hp. reflexivity.
Qed.

End MonadLaws.

Lemma alt_backtracks_witness :
  P._alt (P._chain (P.str "uci") (fun _ => P.eof))
         (fun _ => P.str "ucinewgame") "ucinewgame"
  = E.Right ("ucinewgame", "").
Proof.
  exact (alt_backtracks (P.str "uci") (fun _ => P.eof) (P.str "ucinewgame")
           "ucinewgame" "Expected EOF" eq_refl).
Defined.

(* ================================================================== *)
(** ** Repetition *)
(* ================================================================== *)

Section Repetition.

Context {A : Type}.
Implicit Types (p : P.Parser A) (x : string).

(** The loop of [many] over a parser that consumes: it returns, and where
    it stops the input is exhausted or the parser fails. *)
Lemma many_loop_consuming p :
  consumes p ->
  forall fuel x acc,
    String.length x <= fuel ->
    exists vs r,
      P.many_loop fuel p acc x (p x) = E.Right (vs, r) /\
      (r = "" \/ E.isLeft (p r) = true).
Proof.
  intros Hc. induction fuel as [| fuel IH]; intros x acc Hfuel.
  - destruct x as [| c x]; [| cbn in Hfuel; lia].
    exists acc, "". cbn [P.many_loop].
    destruct (p "") as [e | [a next]]; (split; [reflexivity | now left]).
  - cbn [P.many_loop]. destruct (p x) as [e | [a next]] eqn:Hp.
    + exists acc, x. split; [reflexivity | right; now rewrite Hp].
    + destruct x as [| c x].
      * exists acc, "". split; [reflexivity | now left].
      * cbn [String.length Nat.ltb Nat.leb].
        apply IH.
        assert (String.length next < String.length (String c x))
          by (apply (Hc _ a); [discriminate | exact Hp]).
        cbn in *. lia.
Qed.

(** [many] over a parser that consumes never fails and never runs out of
    turns; it stops only at the end of the input or where the parser
    fails. *)
Theorem many_returns_when_consuming p x :
  consumes p ->
  exists vs r,
    P.many p x = E.Right (vs, r) /\ (r = "" \/ E.isLeft (p r) = true).
Proof.
  intros Hc. unfold P.many.
  apply many_loop_consuming; [exact Hc | apply Nat.le_refl].
Qed.

(** [many1] fails exactly when the parser fails on the input as given,
    and with the parser's own error. *)
Lemma many1_fails_with_first_error p x e :
  p x = E.Left e -> P.many1 p x = E.Left e.
Proof.
  intros Hp. unfold P.many1. rewrite Hp. reflexivity.
Qed.

End Repetition.

Section SatisfyRuns.

Variable desc : string.
Variable pred : ascii -> bool.

Lemma satisfy_consumes : consumes (P.satisfy desc pred).
Proof.
  intros x a r _ H. destruct x as [| c x]; cbn [P.satisfy] in H;
    [discriminate |].
  destruct (pred c); [| discriminate].
  injection H as _ <-. cbn. lia.
Qed.

Lemma many_loop_satisfy_run (x : string) :
  forall fuel acc,
    String.length x <= fuel ->
    P.many_loop fuel (P.satisfy desc pred) acc x (P.satisfy desc pred x)
    = E.Right ((acc ++ chars (takeWhile pred x))%list, dropWhile pred x).
Proof.
  induction x as [| c rest IH]; intros fuel acc Hfuel.
  - cbn [takeWhile dropWhile chars]. rewrite app_nil_r.
    destruct fuel; reflexivity.
  - cbn [P.satisfy takeWhile dropWhile]. destruct (pred c).
    + destruct fuel as [| fuel]; [cbn in Hfuel; lia |].
      cbn [P.many_loop String.length Nat.ltb Nat.leb].
      rewrite IH by (cbn in Hfuel; lia).
      cbn [chars]. rewrite <- app_assoc. reflexivity.
    + cbn [chars]. rewrite app_nil_r. destruct fuel; reflexivity.
Qed.

Lemma many_satisfy_run (x : string) :
  P.many (P.satisfy desc pred) x
  = E.Right (chars (takeWhile pred x), dropWhile pred x).
Proof.
  unfold P.many. rewrite many_loop_satisfy_run by apply Nat.le_refl.
  reflexivity.
Qed.

Lemma take_drop_while (x : string) :
  takeWhile pred x ++ dropWhile pred x = x.
Proof.
  induction x as [| c x IH]; [reflexivity |].
  cbn [takeWhile dropWhile]. destruct (pred c); [| reflexivity].
  cbn [append]. now rewrite IH.
Qed.

(** [many] over a single-character parser is greedy: it returns the
    characters of the longest prefix that satisfies the predicate, one by
    one, and leaves the rest, which does not start with such a character;
    nothing of the input is lost. *)
Theorem many_satisfy_longest_prefix (x : string) :
  P.many (P.satisfy desc pred) x
  = E.Right (chars (takeWhile pred x), dropWhile pred x) /\
  join "" (chars (takeWhile pred x)) ++ dropWhile pred x = x /\
  match dropWhile pred x with
  | EmptyString => True
  | String c _ => pred c = false
  end.
Proof.
  split; [apply many_satisfy_run |].
  split; [rewrite join_chars; apply take_drop_while |].
  induction x as [| c x IH]; [exact I |].
  cbn [dropWhile]. destruct (pred c) eqn:Hc; [exact IH | exact Hc].
Qed.

End SatisfyRuns.

Lemma many_returns_when_consuming_witness :
  exists vs r,
    P.many P.digit "12ab" = E.Right (vs, r) /\
    (r = "" \/ E.isLeft (P.digit r) = true).
Proof.
  exact (many_returns_when_consuming P.digit "12ab" (satisfy_consumes _ _)).
Defined.

(* ================================================================== *)
(** ** Literals, whitespace, lookahead and optional parts *)
(* ================================================================== *)

Section Literals.

Lemma prefix_append (s r : string) : String.prefix s (s ++ r) = true.
Proof.
  induction s as [| c s IH]; [destruct r; reflexivity |].
  cbn [append String.prefix]. destruct (ascii_dec c c); [exact IH | congruence].
Qed.

Lemma slice_append (s r : string) : slice (String.length s) (s ++ r) = r.
Proof.
  induction s as [| c s IH]; [destruct r; reflexivity | exact IH].
Qed.

Lemma prefix_split (s x : string) :
  String.prefix s x = true -> x = s ++ slice (String.length s) x.
Proof.
  revert x. induction s as [| c s IH]; intros x H.
  - destruct x; reflexivity.
  - destruct x as [| d x]; [discriminate |].
    cbn [String.prefix] in H. destruct (ascii_dec c d); [| discriminate].
    subst d. cbn. f_equal. apply IH. exact H.
Qed.

Lemma str_append (s r : string) : P.str s (s ++ r) = E.Right (s, r).
Proof.
  unfold P.str, startsWith. rewrite prefix_append, slice_append. reflexivity.
Qed.

(** [str(s)] succeeds exactly on the inputs that start with [s]; it
    returns [s] itself and leaves what follows it. *)
Theorem str_accepts_exactly_its_text (s x v r : string) :
  P.str s x = E.Right (v, r) <-> v = s /\ x = s ++ r.
Proof.
  split.
  - unfold P.str, startsWith. destruct (String.prefix s x) eqn:Hpre;
      [| discriminate].
    intros H. injection H as <- <-. split; [reflexivity |].
    apply prefix_split. exact Hpre.
  - intros [-> ->]. apply str_append.
Qed.

(** [eof] succeeds on the empty input only, and consumes nothing. *)
Lemma eof_only_at_end (x : string) :
  E.isRight (P.eof x) = String.eqb x "".
Proof. destruct x; reflexivity. Qed.

Lemma whitespaces_run (x : string) :
  P.whitespaces x
  = E.Right (takeWhile isWhitespace x, dropWhile isWhitespace x).
Proof.
  unfold P.whitespaces, P.flat, P._map, P.whitespace, P.oneOf.
  rewrite many_satisfy_run. cbn [E.map]. rewrite join_chars. reflexivity.
Qed.

Lemma dropWhile_stops (f : ascii -> bool) (x : string) :
  match dropWhile f x with
  | EmptyString => True
  | String c _ => f c = false
  end.
Proof.
  induction x as [| c x IH]; [exact I |].
  cbn [dropWhile]. destruct (f c) eqn:Hc; [exact IH | exact Hc].
Qed.

(** [whitespaces] never fails: it takes the longest run of space, tab,
    carriage return and line feed at the head of the input, possibly
    none, and what it leaves does not start with one of them. *)
Theorem whitespaces_takes_longest_run (x : string) :
  P.whitespaces x
  = E.Right (takeWhile isWhitespace x, dropWhile isWhitespace x) /\
  takeWhile isWhitespace x ++ dropWhile isWhitespace x = x /\
  startsWithWhitespace (dropWhile isWhitespace x) = false.
Proof.
  split; [apply whitespaces_run |].
  split; [apply take_drop_while |].
  pose proof (dropWhile_stops isWhitespace x) as H.
  destruct (dropWhile isWhitespace x); [reflexivity | exact H].
Qed.

End Literals.

Section Optional.

Context {A : Type}.
Implicit Types (p : P.Parser A) (x : string).

(** [lookahead(p)] succeeds exactly when [p] does, with the same value,
    and leaves the whole input: running [p] after it is running [p]. *)
Theorem lookahead_consumes_nothing p x :
  (forall a r, P.lookahead p x = E.Right (a, r) ->
               r = x /\ exists r', p x = E.Right (a, r')) /\
  (forall e, P.lookahead p x = E.Left e <-> p x = E.Left e) /\
  P._chain (P.lookahead p) (fun _ => p) x = p x.
Proof.
  unfold P.lookahead, P._chain. destruct (p x) as [e | [a r]] eqn:Hp;
    cbn [E.map E.chain].
  - repeat split; try discriminate; congruence.
  - split; [| split; [| exact Hp]].
    + intros a' r' H. injection H as <- <-.
      split; [reflexivity | exists r; reflexivity].
    + intros e. split; discriminate.
Qed.

(** [option(a, p)] never fails: where [p] fails it yields the default and
    consumes nothing.  [optional(p)] is no such thing: it runs [p],
    drops its value, and fails with the error of [p] where [p] fails. *)
Theorem optional_propagates_failure (a : A) p x e :
  p x = E.Left e ->
  P.option a p x = E.Right (a, x) /\ P.optional p x = E.Left e.
Proof.
  intros Hp. unfold P.option, P.optional, P._alt, P._chain, P._of.
  rewrite Hp. split; reflexivity.
Qed.

(** Where [p] succeeds, [option] and [optional] both consume what [p]
    consumes. *)
Lemma option_optional_on_success (a v : A) p x r :
  p x = E.Right (v, r) ->
  P.option a p x = E.Right (v, r) /\ P.optional p x = E.Right (tt, r).
Proof.
  intros Hp. unfold P.option, P.optional, P._alt, P._chain, P._of.
  rewrite Hp. split; reflexivity.
Qed.

(** [between(l, p, r)] yields the value of [p] and leaves what follows
    the closing parser. *)
Lemma between_value {L R} (pl : P.Parser L) p (pr : P.Parser R)
    x (l : L) (v : A) (c : R) x1 x2 x3 :
  pl x = E.Right (l, x1) -> p x1 = E.Right (v, x2) ->
  pr x2 = E.Right (c, x3) ->
  P.between pl p pr x = E.Right (v, x3).
Proof.
  intros Hl Hp Hr. unfold P.between, P._chain, P._of.
  rewrite Hl. cbn [E.chain]. rewrite Hp. cbn [E.chain]. rewrite Hr.
  reflexivity.
Qed.

End Optional.

Lemma optional_propagates_failure_witness :
  P.option "+" (P.oneOf "-+") "12" = E.Right ("+", "12") /\
  E.isLeft (P.optional (P.oneOf "-+") "12") = true.
Proof.
  destruct (optional_propagates_failure "+" (P.oneOf "-+") "12" _ eq_refl)
    as [H1 H2].
  split; [exact H1 | rewrite H2; reflexivity].
Defined.

(* ================================================================== *)
(** ** Words, lines and lists of moves *)
(* ================================================================== *)

Section Tokens.

Lemma not_whitespace_not_space c :
  isWhitespace c = false -> includes " " c = false.
Proof.
  unfold isWhitespace. cbn [includes]. intros H.
  repeat (apply orb_false_elim in H as [? H]).
  rewrite orb_false_r. assumption.
Qed.

Lemma wordEnd_at_whitespace c x :
  isWhitespace c = true ->
  wordEnd (String c x) = E.Right (chr c, String c x).
Proof.
  intros H. unfold wordEnd, P.lookahead, P.choice. cbn [reduceRight].
  unfold P._alt, P._zero, P.whitespace, P.oneOf, P.satisfy.
  cbn [E.alt P.eof]. fold (isWhitespace c). rewrite H. reflexivity.
Qed.

Lemma wordEnd_inside_word c x :
  isWhitespace c = false -> E.isLeft (wordEnd (String c x)) = true.
Proof.
  intros H. unfold wordEnd, P.lookahead, P.choice. cbn [reduceRight].
  unfold P._alt, P._zero, P.whitespace, P.oneOf, P.satisfy.
  cbn [E.alt P.eof]. fold (isWhitespace c). rewrite H. reflexivity.
Qed.

Lemma scan_word (x : string) :
  forall fuel,
    String.length x < fuel ->
    P.scan fuel wordEnd (P.noneOf " ") x
    = E.Right (chars (takeWhile notWhitespace x), dropWhile notWhitespace x).
Proof.
  induction x as [| c x IH]; intros fuel Hfuel;
    (destruct fuel as [| fuel]; [cbn in Hfuel; lia |]).
  - reflexivity.
  - cbn [P.scan takeWhile dropWhile]. unfold P._alt, P._chain, notWhitespace.
    destruct (isWhitespace c) eqn:Hc; cbn [negb].
    + rewrite (wordEnd_at_whitespace c x Hc). reflexivity.
    + pose proof (wordEnd_inside_word c x Hc) as Hend.
      destruct (wordEnd (String c x)) as [e | r]; [| discriminate].
      cbn [E.chain E.alt]. unfold P.noneOf, P.satisfy.
      rewrite (not_whitespace_not_space c Hc). cbn [negb E.chain].
      fold (P.noneOf " ").
      rewrite IH by (cbn in Hfuel; lia). reflexivity.
Qed.

Lemma word_run (x : string) :
  word x = E.Right (takeWhile notWhitespace x, dropWhile notWhitespace x).
Proof.
  unfold word, P.flat, P._map, P.manyTill. fold wordEnd.
  rewrite scan_word by lia. cbn [E.map]. rewrite join_chars. reflexivity.
Qed.

(** [word] never fails: it returns the longest run of characters that are
    no whitespace at the head of the input, which is the empty word on
    an empty input or before whitespace, and leaves the rest. *)
Theorem word_takes_longest_run (x : string) :
  word x = E.Right (takeWhile notWhitespace x, dropWhile notWhitespace x) /\
  takeWhile notWhitespace x ++ dropWhile notWhitespace x = x /\
  (dropWhile notWhitespace x = ""
   \/ startsWithWhitespace (dropWhile notWhitespace x) = true).
Proof.
  split; [apply word_run |].
  split; [apply take_drop_while |].
  pose proof (dropWhile_stops notWhitespace x) as H.
  destruct (dropWhile notWhitespace x) as [| c r]; [now left | right].
  cbn [startsWithWhitespace]. unfold notWhitespace in H.
  now apply negb_false_iff in H.
Qed.

Lemma lineEnd_inside_line c x :
  isLineChar c = true -> E.isLeft (lineEnd (String c x)) = true.
Proof.
  unfold isLineChar. intros H. apply andb_prop in H as [Hlf Hcr].
  apply negb_true_iff in Hlf, Hcr.
  unfold lineEnd, P.newline, P.choice. cbn [reduceRight].
  unfold P._alt, P._zero, P.str, startsWith, P.char, P.satisfy.
  cbn [E.alt P.eof String.prefix].
  destruct (ascii_dec CR c) as [<- | _].
  - rewrite Ascii.eqb_refl in Hcr. discriminate.
  - cbn [E.alt]. rewrite Hlf. reflexivity.
Qed.

Lemma line_char_not_lf c : isLineChar c = true -> includes (chr LF) c = false.
Proof.
  unfold isLineChar. intros H. apply andb_prop in H as [Hlf _].
  apply negb_true_iff in Hlf. cbn [includes chr]. now rewrite Hlf.
Qed.

Lemma scan_line (t tail v rest : string) :
  allChars isLineChar t = true ->
  lineEnd tail = E.Right (v, rest) ->
  forall fuel,
    String.length t < fuel ->
    P.scan fuel lineEnd (P.noneOf (chr LF)) (t ++ tail)
    = E.Right (chars t, rest).
Proof.
  intros Ht Hend. induction t as [| c t IH]; intros fuel Hfuel;
    (destruct fuel as [| fuel]; [cbn in Hfuel; lia |]).
  - cbn [append P.scan chars]. unfold P._alt, P._chain.
    rewrite Hend. reflexivity.
  - cbn [allChars] in Ht. apply andb_prop in Ht as [Hc Ht].
    cbn [append P.scan chars]. unfold P._alt, P._chain.
    pose proof (lineEnd_inside_line c (t ++ tail) Hc) as Hfail.
    destruct (lineEnd (String c (t ++ tail))) as [e | r]; [| discriminate].
    cbn [E.chain E.alt]. unfold P.noneOf, P.satisfy.
    rewrite (line_char_not_lf c Hc). cbn [negb E.chain].
    fold (P.noneOf (chr LF)).
    rewrite (IH Ht) by (cbn in Hfuel; lia). reflexivity.
Qed.

Lemma length_append (a b : string) :
  String.length (a ++ b) = String.length a + String.length b.
Proof.
  induction a as [| c a IH]; cbn; [reflexivity | now rewrite IH].
Qed.

Lemma rest_of_line (t tail v rest : string) :
  allChars isLineChar t = true ->
  lineEnd tail = E.Right (v, rest) ->
  P.flat (P.manyTill lineEnd (P.noneOf (chr LF))) (t ++ tail)
  = E.Right (t, rest).
Proof.
  intros Ht Hend. unfold P.flat, P._map, P.manyTill.
  rewrite (scan_line t tail v rest Ht Hend)
    by (rewrite length_append; lia).
  cbn [E.map]. rewrite join_chars. reflexivity.
Qed.

(** Reading a text to the end of its line: on a text with no line feed
    and no carriage return in it, the rest-of-line parser returns the
    whole text, whether the line ends with the input, with a line feed or
    with a carriage return and a line feed, and consumes that line end. *)
Theorem rest_of_line_reads_the_line (t rest : string) :
  allChars isLineChar t = true ->
  P.flat (P.manyTill lineEnd (P.noneOf (chr LF))) t = E.Right (t, "") /\
  P.flat (P.manyTill lineEnd (P.noneOf (chr LF))) (t ++ String LF rest)
  = E.Right (t, rest) /\
  P.flat (P.manyTill lineEnd (P.noneOf (chr LF)))
         (t ++ String CR (String LF rest))
  = E.Right (t, rest).
Proof.
  intros Ht. repeat split.
  - pose proof (rest_of_line t "" "" "" Ht eq_refl) as H.
    assert (Hnil : t ++ "" = t).
    { clear. induction t as [| c t IH]; cbn; [reflexivity | now rewrite IH]. }
    rewrite Hnil in H. exact H.
  - apply (rest_of_line t _ (chr LF) rest Ht). reflexivity.
  - apply (rest_of_line t _ (String CR (String LF "")) rest Ht).
    destruct rest; reflexivity.
Qed.

End Tokens.

Lemma rest_of_line_reads_the_line_witness :
  P.flat (P.manyTill lineEnd (P.noneOf (chr LF))) "Some Name"
  = E.Right ("Some Name", "") /\
  P.flat (P.manyTill lineEnd (P.noneOf (chr LF)))
         ("Some Name" ++ String LF "next")
  = E.Right ("Some Name", "next") /\
  P.flat (P.manyTill lineEnd (P.noneOf (chr LF)))
         ("Some Name" ++ String CR (String LF "next"))
  = E.Right ("Some Name", "next").
Proof.
  exact (rest_of_line_reads_the_line "Some Name" "next" eq_refl).
Defined.

(* ================================================================== *)
(** ** Separated lists *)
(* ================================================================== *)

Section ChainSteps.

Context {A B : Type}.

Lemma chain_right (p : P.Parser A) (f : A -> P.Parser B) x a r :
  p x = E.Right (a, r) -> P._chain p f x = f a r.
Proof. intros H. unfold P._chain. rewrite H. reflexivity. Qed.

Lemma chain_left (p : P.Parser A) (f : A -> P.Parser B) x e :
  p x = E.Left e -> P._chain p f x = E.Left e.
Proof. intros H. unfold P._chain. rewrite H. reflexivity. Qed.

End ChainSteps.

Section SepBy.

Context {A B : Type}.
Implicit Types (p : P.Parser A) (sep : P.Parser B) (x : string).

Lemma sepBy_cases p sep x :
  consumes (P._chain sep (fun _ => p)) ->
  (E.isLeft (p x) = true -> P.sepBy p sep x = E.Right ([], x)) /\
  (forall a r, p x = E.Right (a, r) ->
     exists vs r',
       P.many (P._chain sep (fun _ => p)) r = E.Right (vs, r') /\
       P.sepBy p sep x = E.Right (a :: vs, r')).
Proof.
  intros Hc. unfold P.sepBy, P.sepBy1, P._alt. split.
  - intros Hp. destruct (p x) as [e | v] eqn:Hpx; [| discriminate].
    rewrite (chain_left _ _ _ _ Hpx). reflexivity.
  - intros a r Hp. rewrite (chain_right _ _ _ _ _ Hp).
    destruct (many_returns_when_consuming (P._chain sep (fun _ => p)) r Hc)
      as (vs & r' & Hmany & _).
    exists vs, r'. rewrite (chain_right _ _ _ _ _ Hmany).
    split; [exact Hmany | reflexivity].
Qed.

(** [sepBy] never fails when separator and element together consume:
    where the first element fails it yields the empty list and leaves the
    input untouched; otherwise it yields the first element followed by
    what [many] collects of separator and element. *)
Theorem sepBy_never_fails p sep x :
  consumes (P._chain sep (fun _ => p)) ->
  (E.isLeft (p x) = true -> P.sepBy p sep x = E.Right ([], x)) /\
  (forall a r, p x = E.Right (a, r) ->
     exists vs r',
       P.many (P._chain sep (fun _ => p)) r = E.Right (vs, r') /\
       P.sepBy p sep x = E.Right (a :: vs, r')).
Proof. exact (sepBy_cases p sep x). Qed.

End SepBy.

Section Moves.

Lemma dropWhile_length (f : ascii -> bool) (x : string) :
  String.length (dropWhile f x) <= String.length x.
Proof.
  induction x as [| c x IH]; [apply Nat.le_refl |].
  cbn [dropWhile]. destruct (f c); cbn; lia.
Qed.

(** The step [many] repeats in [moves]: whitespace, then a word. *)
Lemma spaced_word_run (x : string) :
  P._chain P.whitespaces (fun _ => word) x
  = E.Right (takeWhile notWhitespace (dropWhile isWhitespace x),
             dropWhile notWhitespace (dropWhile isWhitespace x)).
Proof.
  unfold P._chain. rewrite whitespaces_run. cbn [E.chain]. apply word_run.
Qed.

Lemma spaced_word_consumes :
  consumes (P._chain P.whitespaces (fun _ => word)).
Proof.
  intros x a r Hne H. rewrite spaced_word_run in H. injection H as _ <-.
  destruct x as [| c x]; [congruence |].
  cbn [dropWhile]. destruct (isWhitespace c) eqn:Hc.
  - pose proof (dropWhile_length isWhitespace x).
    pose proof (dropWhile_length notWhitespace (dropWhile isWhitespace x)).
    cbn. lia.
  - cbn [dropWhile]. unfold notWhitespace at 1. rewrite Hc. cbn [negb].
    pose proof (dropWhile_length notWhitespace x). cbn. lia.
Qed.

Lemma takeWhile_all (f : ascii -> bool) (w tail : string) :
  allChars f w = true ->
  match tail with EmptyString => True | String c _ => f c = false end ->
  takeWhile f (w ++ tail) = w /\ dropWhile f (w ++ tail) = tail.
Proof.
  intros Hw Htail. induction w as [| c w IH].
  - cbn [append]. destruct tail as [| d tail]; [split; reflexivity |].
    cbn [takeWhile dropWhile]. rewrite Htail. split; reflexivity.
  - cbn [allChars] in Hw. apply andb_prop in Hw as [Hc Hw].
    destruct (IH Hw) as [IH1 IH2].
    cbn [append takeWhile dropWhile]. rewrite Hc, IH1, IH2.
    split; reflexivity.
Qed.

Lemma word_before (w tail : string) :
  isWord w = true ->
  tail = "" \/ startsWithWhitespace tail = true ->
  word (w ++ tail) = E.Right (w, tail).
Proof.
  intros Hw Htail. unfold isWord in Hw. apply andb_prop in Hw as [_ Hw].
  rewrite word_run.
  destruct (takeWhile_all notWhitespace w tail Hw) as [-> ->];
    [| reflexivity].
  destruct Htail as [-> | Htail]; [exact I |].
  destruct tail as [| c tail]; [exact I |].
  cbn [startsWithWhitespace] in Htail. unfold notWhitespace.
  now rewrite Htail.
Qed.

Lemma spaced_word_before (w tail : string) :
  isWord w = true ->
  tail = "" \/ startsWithWhitespace tail = true ->
  P._chain P.whitespaces (fun _ => word) (" " ++ w ++ tail)
  = E.Right (w, tail).
Proof.
  intros Hw Htail. unfold P._chain. rewrite whitespaces_run.
  assert (Hdrop : dropWhile isWhitespace (" " ++ w ++ tail) = w ++ tail).
  { pose proof Hw as Hw'. unfold isWord in Hw'.
    apply andb_prop in Hw' as [Hne Hall].
    destruct w as [| c w]; [discriminate |].
    cbn [allChars] in Hall. apply andb_prop in Hall as [Hc _].
    unfold notWhitespace in Hc.
    cbn [append dropWhile]. change (isWhitespace " ") with true.
    cbn [dropWhile].
    destruct (isWhitespace c); [discriminate | reflexivity]. }
  cbn [E.chain]. rewrite Hdrop. apply word_before; assumption.
Qed.

Lemma spaced_starts (ws : list string) :
  spaced ws = "" \/ startsWithWhitespace (spaced ws) = true.
Proof. destruct ws; [now left | now right]. Qed.

(** The loop of [many] in [moves], over words that each follow one
    space, with [tail] after the last of them. *)
Lemma many_loop_spaced (tail : string) (extra : list string) :
  tail = "" \/ startsWithWhitespace tail = true ->
  (forall fuel acc,
     String.length tail <= fuel ->
     P.many_loop fuel (P._chain P.whitespaces (fun _ => word)) acc tail
       (P._chain P.whitespaces (fun _ => word) tail)
     = E.Right ((acc ++ extra)%list, "")) ->
  forall ws,
    Forall (fun w => isWord w = true) ws ->
    forall fuel acc,
      String.length (spaced ws ++ tail) <= fuel ->
      P.many_loop fuel (P._chain P.whitespaces (fun _ => word)) acc
        (spaced ws ++ tail)
        (P._chain P.whitespaces (fun _ => word) (spaced ws ++ tail))
      = E.Right ((acc ++ ws ++ extra)%list, "").
Proof.
  intros Htail Hlast ws Hws.
  induction Hws as [| w ws Hw Hws IH]; intros fuel acc Hfuel.
  - cbn [spaced append app]. apply Hlast. exact Hfuel.
  - assert (Hnext : spaced ws ++ tail = ""
                    \/ startsWithWhitespace (spaced ws ++ tail) = true).
    { destruct ws as [| w' ws']; [exact Htail | now right]. }
    assert (Heq : spaced (w :: ws) ++ tail = " " ++ w ++ spaced ws ++ tail).
    { cbn [spaced append]. f_equal.
      clear. induction w as [| c w IHw]; cbn; [reflexivity | now rewrite IHw]. }
    rewrite Heq in *.
    rewrite (spaced_word_before w (spaced ws ++ tail) Hw Hnext).
    destruct fuel as [| fuel]; [cbn in Hfuel; lia |].
    cbn [append P.many_loop String.length Nat.ltb Nat.leb].
    rewrite IH.
    + rewrite <- app_assoc. reflexivity.
    + cbn [append String.length] in Hfuel.
      rewrite length_append in Hfuel. lia.
Qed.

Lemma join_spaced (w : string) (ws : list string) :
  join " " (w :: ws) = w ++ spaced ws.
Proof.
  revert w. induction ws as [| w' ws IH]; intros w.
  - cbn [join spaced]. symmetry. apply append_nil_r.
  - change (join " " (w :: w' :: ws)) with (w ++ " " ++ join " " (w' :: ws)).
    rewrite IH. reflexivity.
Qed.

Lemma moves_join (w : string) (ws : list string) :
  Forall (fun v => isWord v = true) (w :: ws) ->
  moves (join " " (w :: ws)) = E.Right (w :: ws, "").
Proof.
  intros Hall. inversion Hall as [| ? ? Hw Hws]; subst.
  rewrite join_spaced.
  unfold moves, move, P.sepBy, P.sepBy1, P._alt.
  rewrite (chain_right _ _ _ _ _
             (word_before w (spaced ws) Hw (spaced_starts ws))).
  assert (Hmany : P.many (P._chain P.whitespaces (fun _ => word)) (spaced ws)
                  = E.Right (ws, "")).
  { unfold P.many. rewrite <- (append_nil_r (spaced ws)).
    rewrite (many_loop_spaced "" [] (or_introl eq_refl));
      [rewrite app_nil_r; reflexivity | | exact Hws | apply Nat.le_refl].
    intros fuel acc _. rewrite app_nil_r. destruct fuel; reflexivity. }
  rewrite (chain_right _ _ _ _ _ Hmany). reflexivity.
Qed.

(** [moves] splits a line of words separated by single spaces into
    exactly these words and consumes the whole line. *)
Theorem moves_splits_words (w : string) (ws : list string) :
  Forall (fun v => isWord v = true) (w :: ws) ->
  moves (join " " (w :: ws)) = E.Right (w :: ws, "").
Proof. exact (moves_join w ws). Qed.

(** A space after the last word costs an extra, empty move: [moves]
    reads the words and then one empty word. *)
Theorem moves_trailing_space_adds_empty_move (w : string) (ws : list string) :
  Forall (fun v => isWord v = true) (w :: ws) ->
  moves (join " " (w :: ws) ++ " ") = E.Right ((w :: ws) ++ [""], "")%list.
Proof.
  intros Hall. inversion Hall as [| ? ? Hw Hws]; subst.
  rewrite join_spaced, append_assoc.
  unfold moves, move, P.sepBy, P.sepBy1, P._alt.
  assert (Hnext : spaced ws ++ " " = ""
                  \/ startsWithWhitespace (spaced ws ++ " ") = true).
  { right. destruct ws; reflexivity. }
  rewrite (chain_right _ _ _ _ _
             (word_before w (spaced ws ++ " ") Hw Hnext)).
  assert (Hmany : P.many (P._chain P.whitespaces (fun _ => word))
                         (spaced ws ++ " ")
                  = E.Right ((ws ++ [""])%list, "")).
  { unfold P.many.
    rewrite (many_loop_spaced " " [""] (or_intror eq_refl));
      [reflexivity | | exact Hws | apply Nat.le_refl].
    intros fuel acc Hfuel.
    destruct fuel as [| fuel]; [cbn in Hfuel; lia |].
    destruct fuel; reflexivity. }
  rewrite (chain_right _ _ _ _ _ Hmany). reflexivity.
Qed.

(** [moves] never yields the empty list: [word] succeeds on every input,
    so the first element is always there, be it the empty word. *)
Theorem moves_is_never_empty (x : string) :
  exists v vs r, moves x = E.Right (v :: vs, r).
Proof.
  destruct (sepBy_cases word P.whitespaces x spaced_word_consumes)
    as [_ H].
  destruct (H _ _ (word_run x)) as (vs & r & _ & Hmoves).
  eexists _, vs, r. exact Hmoves.
Qed.

End Moves.

Lemma sepBy_never_fails_witness :
  P.sepBy word P.whitespaces "e2e4 e7e5" = E.Right (["e2e4"; "e7e5"], "").
Proof.
  destruct (sepBy_never_fails word P.whitespaces "e2e4 e7e5"
              spaced_word_consumes) as [_ H].
  destruct (H "e2e4" " e7e5" eq_refl) as (vs & r & Hmany & Hsep).
  rewrite Hsep. vm_compute in Hmany. injection Hmany as <- <-. reflexivity.
Defined.

Lemma moves_splits_words_witness :
  moves "e2e4 e7e5 g1f3" = E.Right (["e2e4"; "e7e5"; "g1f3"], "").
Proof.
  apply (moves_splits_words "e2e4" ["e7e5"; "g1f3"]).
  repeat constructor.
Defined.

Lemma moves_trailing_space_adds_empty_move_witness :
  moves "e2e4 e7e5 " = E.Right (["e2e4"; "e7e5"; ""], "").
Proof.
  apply (moves_trailing_space_adds_empty_move "e2e4" ["e7e5"]).
  repeat constructor.
Defined.

(* ================================================================== *)
(** * Further properties of the grammar *)
(* ================================================================== *)

Section GrammarFacts.

Lemma skipGarbage_error {A} (p : P.Parser A) (x : string) e :
  skipGarbage p x = E.Left e -> e = "Expected anything but got EOF".
Proof.
  induction x as [| c x IH]; cbn [skipGarbage];
    destruct (p _) as [e' | r]; cbn [E.alt]; try discriminate.
  - intros H. injection H as <-. reflexivity.
  - exact IH.
Qed.

(** [skipGarbage(p)] tries [p] at every offset of the input from the
    left, the end of the input included, and returns what [p] returns at
    the first offset where it succeeds; where there is none, it fails
    with the error of [anyChar] at the end of the input, whatever the
    errors of [p] were. *)
Theorem skipGarbage_returns_first_success {A} (p : P.Parser A) (x : string) :
  skipGarbage p x
  = match find (fun s => E.isRight (p s)) (suffixes x) with
    | Some s => p s
    | None => E.Left "Expected anything but got EOF"
    end.
Proof.
  induction x as [| c x IH]; cbn [skipGarbage suffixes find].
  - destruct (p "") as [e | r] eqn:Hp; cbn [E.isRight E.alt];
      [reflexivity | now rewrite Hp].
  - destruct (p (String c x)) as [e | r] eqn:Hp; cbn [E.isRight E.alt];
      [exact IH | now rewrite Hp].
Qed.

Lemma parse_failure_text (line : string) (e : string) :
  parseUCIEngineCmd line = E.Left e -> e = parseFailure.
Proof.
  unfold parseUCIEngineCmd, P.expected.
  destruct (skipGarbage uciEngineCmdEOF line) as [e' | [c r]] eqn:H;
    cbn [E.mapLeft E.map]; [| discriminate].
  intros Heq. injection Heq as <-.
  rewrite (skipGarbage_error _ _ _ H). reflexivity.
Qed.

(** Whatever the line and whatever made its commands fail, a failed
    parse reports one and the same message: the end of input that the
    garbage skipping ran into. *)
Theorem parse_failure_is_uniform (line : string) (e : string) :
  parseUCIEngineCmd line = E.Left e -> e = parseFailure.
Proof. exact (parse_failure_text line e). Qed.

Lemma whitespaces_all (r : string) :
  allChars isWhitespace r = true -> P.whitespaces r = E.Right (r, "").
Proof.
  intros Hr. rewrite whitespaces_run.
  destruct (takeWhile_all isWhitespace r "" Hr I) as [H1 H2].
  rewrite append_nil_r in H1, H2. rewrite H1, H2. reflexivity.
Qed.

Lemma parse_at_offset_zero (x : string) c r :
  uciEngineCmdEOF x = E.Right (c, r) -> parseUCIEngineCmd x = E.Right c.
Proof.
  intros H. unfold parseUCIEngineCmd, P.expected.
  destruct x; cbn [skipGarbage]; rewrite H; reflexivity.
Qed.

Lemma cmd_then_whitespace (x r : string) c :
  uciEngineCmd x = E.Right (c, r) ->
  allChars isWhitespace r = true ->
  uciEngineCmdEOF x = E.Right (c, "").
Proof.
  intros Hcmd Hr. unfold uciEngineCmdEOF.
  rewrite (chain_right _ _ _ _ _ Hcmd).
  rewrite (chain_right _ _ _ _ _ (whitespaces_all r Hr)).
  reflexivity.
Qed.

(** A command followed by nothing but whitespace parses: what the command
    grammar leaves may be any run of spaces, tabs, carriage returns and
    line feeds. *)
Theorem trailing_whitespace_is_accepted (x r : string) c :
  uciEngineCmd x = E.Right (c, r) ->
  allChars isWhitespace r = true ->
  parseUCIEngineCmd x = E.Right c.
Proof.
  intros Hcmd Hr.
  apply (parse_at_offset_zero x c "").
  apply (cmd_then_whitespace x r c Hcmd Hr).
Qed.

(** The alternative at position [n] of a [choice] decides when it
    succeeds and every alternative listed after it fails. *)
Lemma choice_pick {A} (ps : list (P.Parser A)) (s : string) (n : nat)
    (q : P.Parser A) :
  nth_error ps n = Some q ->
  E.isRight (q s) = true ->
  forallb (fun r => E.isLeft (r s)) (skipn (S n) ps) = true ->
  P.choice ps s = q s.
Proof.
  intros Hn Hq Hpost.
  destruct (nth_error_split ps n Hn) as (l1 & l2 & -> & <-).
  apply choice_app_success; [exact Hq |].
  apply Forall_forall. intros r Hr.
  assert (Hskip : skipn (S (List.length l1)) (l1 ++ q :: l2) = l2).
  { clear. induction l1 as [| a l1 IH]; [reflexivity | exact IH]. }
  rewrite Hskip in Hpost. rewrite forallb_forall in Hpost. now apply Hpost.
Qed.

(** [numeric] tries [natural] first: on an unsigned decimal it reads the
    integer part only and leaves the dot and the fraction, and
    [floating] is reached only behind a sign, where [natural] fails. *)
Theorem numeric_stops_at_the_dot (ip fp rest : string) :
  allDigits ip = true -> ip <> "" ->
  allDigits fp = true -> fp <> "" ->
  startsWithDigit rest = false ->
  numeric (ip ++ "." ++ fp ++ rest)
  = E.Right (toNumber ip, "." ++ fp ++ rest) /\
  ((digitsValue 0 ip < 2 ^ 53)%Z -> toNumber ip = ofInt (digitsValue 0 ip)) /\
  numeric ("-" ++ ip ++ "." ++ fp ++ rest)
  = floating ("-" ++ ip ++ "." ++ fp ++ rest).
Proof.
  intros Hip Hipne Hfp Hfpne Hrest. split; [| split].
  - pose proof (natural_digits ip ("." ++ fp ++ rest) Hip Hipne eq_refl)
      as Hnat.
    unfold numeric.
    rewrite (choice_pick [floating; natural] _ 1 natural eq_refl);
      [exact Hnat | rewrite Hnat; reflexivity | reflexivity].
  - exact (toNumber_exact ip Hip).
  - pose proof (int_digits "-" ip ("." ++ fp ++ rest)
                  (or_intror (or_intror eq_refl)) Hip Hipne eq_refl) as Hint.
    assert (Hdot : P.char "." ("." ++ fp ++ rest)
                   = E.Right (".", fp ++ rest)) by reflexivity.
    assert (Hfl : E.isRight (floating ("-" ++ ip ++ "." ++ fp ++ rest)) = true).
    { unfold floating, P.expected.
      rewrite (chain_right _ _ _ _ _ Hint).
      rewrite (chain_right _ _ _ _ _ Hdot).
      rewrite (chain_right _ _ _ _ _ (natural_digits fp rest Hfp Hfpne Hrest)).
      reflexivity. }
    unfold numeric.
    rewrite (choice_pick [floating; natural] _ 0 floating eq_refl);
      [reflexivity | exact Hfl | reflexivity].
Qed.

End GrammarFacts.

Lemma parse_failure_is_uniform_witness :
  parseUCIEngineCmd "go depth twelve" = E.Left parseFailure.
Proof.
  destruct (parseUCIEngineCmd "go depth twelve") as [e | c] eqn:H.
  - rewrite (parse_failure_is_uniform "go depth twelve" e H). reflexivity.
  - vm_compute in H. discriminate H.
Defined.

Lemma trailing_whitespace_is_accepted_witness :
  parseUCIEngineCmd ("isready " ++ String CR (String LF ""))
  = E.Right UCIEngineCommand.IsReady.
Proof.
  apply (trailing_whitespace_is_accepted _
           (" " ++ String CR (String LF "")) UCIEngineCommand.IsReady);
    reflexivity.
Defined.

Lemma numeric_stops_at_the_dot_witness :
  numeric "12.5" = E.Right (toNumber "12", ".5") /\
  ((digitsValue 0 "12" < 2 ^ 53)%Z -> toNumber "12" = ofInt 12) /\
  numeric "-12.5" = floating "-12.5".
Proof.
  apply (numeric_stops_at_the_dot "12" "5" "");
    solve [reflexivity | discriminate].
Defined.

(* ================================================================== *)
(** ** Whole command lines *)
(* ================================================================== *)

Section CommandLines.

(** Rewrites a [choice] into its alternative [q], listed at position [n]. *)
Ltac pick n q :=
  match goal with
  | |- context [P.choice ?ps ?s] => rewrite (choice_pick ps s n q eq_refl)
  end.

Lemma whitespaces_one_space (r : string) :
  startsWithWhitespace r = false ->
  P.whitespaces (" " ++ r) = E.Right (" ", r).
Proof.
  intros Hr. rewrite whitespaces_run.
  cbn [append takeWhile dropWhile]. change (isWhitespace " ") with true.
  cbn [takeWhile dropWhile].
  destruct r as [| c r]; [reflexivity |].
  cbn [startsWithWhitespace] in Hr. cbn [takeWhile dropWhile].
  rewrite Hr. reflexivity.
Qed.

Lemma whitespaces_none (r : string) :
  startsWithWhitespace r = false -> P.whitespaces r = E.Right ("", r).
Proof.
  intros Hr. rewrite whitespaces_run.
  destruct r as [| c r]; [reflexivity |].
  cbn [startsWithWhitespace] in Hr. cbn [takeWhile dropWhile].
  rewrite Hr. reflexivity.
Qed.

Lemma digits_start_no_whitespace (ds : string) :
  allDigits ds = true -> startsWithWhitespace ds = false.
Proof.
  destruct ds as [| c ds]; [reflexivity |].
  cbn [allDigits startsWithWhitespace]. intros H.
  apply andb_prop in H as [Hc _].
  destruct (isWhitespace c) eqn:Hw; [| reflexivity].
  unfold isWhitespace in Hw. cbn [includes] in Hw.
  repeat (apply orb_prop in Hw as [Hw | Hw];
          [apply Ascii.eqb_eq in Hw; subst c; discriminate Hc |]).
  discriminate Hw.
Qed.

Lemma numeric_digits (ds : string) :
  allDigits ds = true -> ds <> "" ->
  numeric ds = E.Right (toNumber ds, "").
Proof.
  intros Hds Hne.
  pose proof (natural_digits ds "" Hds Hne eq_refl) as Hnat.
  rewrite append_nil_r in Hnat.
  unfold numeric.
  rewrite (choice_pick [floating; natural] _ 1 natural eq_refl);
    [exact Hnat | rewrite Hnat; reflexivity | reflexivity].
Qed.

(** A numeric go parameter: keyword, one space, digits. *)
Lemma numeric_parameter_steps (kw : string)
    (tag : number -> UCIGoParameter.t) (ds : string) :
  allDigits ds = true -> ds <> "" ->
  P._chain (P.str kw)
    (fun _ => P._chain P.whitespaces
       (fun _ => P._chain numeric (fun v => P._of (tag v))))
    (kw ++ " " ++ ds)
  = E.Right (tag (toNumber ds), "").
Proof.
  intros Hds Hne.
  rewrite (chain_right _ _ _ _ _ (str_append kw (" " ++ ds))).
  rewrite (chain_right _ _ _ _ _
             (whitespaces_one_space ds (digits_start_no_whitespace ds Hds))).
  rewrite (chain_right _ _ _ _ _ (numeric_digits ds Hds Hne)).
  reflexivity.
Qed.

Lemma go_with_one_parameter (x : string) (param : UCIGoParameter.t) :
  startsWithWhitespace x = false ->
  uciGoParameter x = E.Right (param, "") ->
  parseUCIEngineCmd ("go " ++ x) = E.Right (UCIEngineCommand.Go [param]).
Proof.
  intros Hx Hparam.
  assert (Hsep : P.sepBy uciGoParameter P.whitespaces x
                 = E.Right ([param], "")).
  { unfold P.sepBy, P.sepBy1, P._alt.
    rewrite (chain_right _ _ _ _ _ Hparam).
    assert (Hmany : P.many (P._chain P.whitespaces (fun _ => uciGoParameter)) ""
                    = E.Right ([], "")) by reflexivity.
    rewrite (chain_right _ _ _ _ _ Hmany). reflexivity. }
  assert (Hgo : uciGoCmd ("go " ++ x)
                = E.Right (UCIEngineCommand.Go [param], "")).
  { unfold uciGoCmd, P.expected.
    rewrite (chain_right _ _ _ _ _ (str_append "go" (" " ++ x))).
    rewrite (chain_right _ _ _ _ _ (whitespaces_one_space x Hx)).
    rewrite (chain_right _ _ _ _ _ Hsep). reflexivity. }
  apply (parse_at_offset_zero _ _ "").
  apply (cmd_then_whitespace _ ""); [| reflexivity].
  unfold uciEngineCmd.
  pick 7 uciGoCmd;
    [exact Hgo | rewrite Hgo; reflexivity | reflexivity].
Qed.

Lemma go_numeric_line (kw : string)
    (tag : number -> UCIGoParameter.t) (ds : string) :
  In (kw, tag) numericGoParameters ->
  allDigits ds = true -> ds <> "" ->
  parseUCIEngineCmd ("go " ++ kw ++ " " ++ ds)
  = E.Right (UCIEngineCommand.Go [tag (toNumber ds)]).
Proof.
  intros Hin Hds Hne.
  pose proof (numeric_parameter_steps kw tag ds Hds Hne) as Hsteps.
  unfold numericGoParameters in Hin. cbn [In] in Hin.
  repeat (destruct Hin as [Hin | Hin];
          [injection Hin as <- <- | ]); [.. | contradiction];
    (apply go_with_one_parameter; [reflexivity |]); unfold uciGoParameter.
  - pick 2 uciGoWTimeParameter;
      [exact Hsteps | unfold uciGoWTimeParameter; rewrite Hsteps; reflexivity
       | reflexivity].
  - pick 3 uciGoBTimeParameter;
      [exact Hsteps | unfold uciGoBTimeParameter; rewrite Hsteps; reflexivity
       | reflexivity].
  - pick 4 uciGoWIncParameter;
      [exact Hsteps | unfold uciGoWIncParameter; rewrite Hsteps; reflexivity
       | reflexivity].
  - pick 5 uciGoBIncParameter;
      [exact Hsteps | unfold uciGoBIncParameter; rewrite Hsteps; reflexivity
       | reflexivity].
  - pick 6 uciGoMovesToGoParameter;
      [exact Hsteps
       | unfold uciGoMovesToGoParameter; rewrite Hsteps; reflexivity
       | reflexivity].
  - pick 7 uciGoDepthParameter;
      [exact Hsteps | unfold uciGoDepthParameter; rewrite Hsteps; reflexivity
       | reflexivity].
  - pick 8 uciGoNodesParameter;
      [exact Hsteps | unfold uciGoNodesParameter; rewrite Hsteps; reflexivity
       | reflexivity].
  - pick 9 uciGoMateParameter;
      [exact Hsteps | unfold uciGoMateParameter; rewrite Hsteps; reflexivity
       | reflexivity].
  - pick 10 uciGoMoveTimeParameter;
      [exact Hsteps | unfold uciGoMoveTimeParameter; rewrite Hsteps; reflexivity
       | reflexivity].
Qed.

(** Each of the nine numeric go parameters: the line "go", the keyword
    and a run of digits parses to [Go] with that one parameter, carrying
    the double nearest to the decimal value of the digits, which is that
    value itself below [2^53]. *)
Theorem go_numeric_parameter (kw : string)
    (tag : number -> UCIGoParameter.t) (ds : string) :
  In (kw, tag) numericGoParameters ->
  allDigits ds = true -> ds <> "" ->
  parseUCIEngineCmd ("go " ++ kw ++ " " ++ ds)
  = E.Right (UCIEngineCommand.Go [tag (toNumber ds)]) /\
  ((digitsValue 0 ds < 2 ^ 53)%Z -> toNumber ds = ofInt (digitsValue 0 ds)).
Proof.
  intros Hin Hds Hne. split.
  - exact (go_numeric_line kw tag ds Hin Hds Hne).
  - exact (toNumber_exact ds Hds).
Qed.

(** [manyTill(end)(noneOf("\n"))] reads a text at whose characters the
    end condition fails, up to the point where it succeeds. *)
Lemma scan_text {B} (endp : P.Parser B) (t tail : string) (v : B)
    (rest : string) :
  insideText endp t tail ->
  endp tail = E.Right (v, rest) ->
  forall fuel,
    String.length t < fuel ->
    P.scan fuel endp (P.noneOf (chr LF)) (t ++ tail) = E.Right (chars t, rest).
Proof.
  intros Ht Hend. induction t as [| c t IH]; intros fuel Hfuel;
    (destruct fuel as [| fuel]; [cbn in Hfuel; lia |]).
  - cbn [append P.scan chars]. unfold P._alt, P._chain.
    rewrite Hend. reflexivity.
  - destruct Ht as (Hc & Hfail & Ht).
    cbn [append P.scan chars]. unfold P._alt, P._chain.
    cbn [append] in Hfail.
    destruct (endp (String c (t ++ tail))) as [e | r]; [| discriminate].
    cbn [E.chain E.alt]. unfold P.noneOf, P.satisfy.
    rewrite Hc. cbn [negb E.chain]. fold (P.noneOf (chr LF)).
    rewrite (IH Ht) by (cbn in Hfuel; lia). reflexivity.
Qed.

Lemma read_text {B} (endp : P.Parser B) (t tail : string) (v : B)
    (rest : string) :
  insideText endp t tail ->
  endp tail = E.Right (v, rest) ->
  P.flat (P.manyTill endp (P.noneOf (chr LF))) (t ++ tail) = E.Right (t, rest).
Proof.
  intros Ht Hend. unfold P.flat, P._map, P.manyTill.
  rewrite (scan_text endp t tail v rest Ht Hend)
    by (rewrite length_append; lia).
  cbn [E.map]. rewrite join_chars. reflexivity.
Qed.

Lemma rest_of_line_eof (t : string) :
  allChars isLineChar t = true ->
  P.flat (P.manyTill lineEnd (P.noneOf (chr LF))) t = E.Right (t, "").
Proof.
  intros Ht. pose proof (rest_of_line t "" "" "" Ht eq_refl) as H.
  rewrite append_nil_r in H. exact H.
Qed.

Lemma register_payload (kw text : string)
    (tag : string -> UCIRegister.t) :
  allChars isLineChar text = true ->
  startsWithWhitespace text = false ->
  P._chain (P.str kw)
    (fun _ => P._chain P.whitespaces
       (fun _ => P._chain (P.flat (P.manyTill lineEnd (P.noneOf (chr LF))))
                   (fun v => P._of (tag v))))
    (kw ++ " " ++ text)
  = E.Right (tag text, "").
Proof.
  intros Ht Hs.
  rewrite (chain_right _ _ _ _ _ (str_append kw (" " ++ text))).
  rewrite (chain_right _ _ _ _ _ (whitespaces_one_space text Hs)).
  rewrite (chain_right _ _ _ _ _ (rest_of_line_eof text Ht)).
  reflexivity.
Qed.

Lemma register_with (x : string) (payload : UCIRegister.t) :
  startsWithWhitespace x = false ->
  uciRegister x = E.Right (payload, "") ->
  parseUCIEngineCmd ("register " ++ x)
  = E.Right (UCIEngineCommand.Register payload).
Proof.
  intros Hx Hpay.
  assert (Hcmd : uciRegisterCmd ("register " ++ x)
                 = E.Right (UCIEngineCommand.Register payload, "")).
  { unfold uciRegisterCmd, P.expected.
    rewrite (chain_right _ _ _ _ _ (str_append "register" (" " ++ x))).
    rewrite (chain_right _ _ _ _ _ (whitespaces_one_space x Hx)).
    rewrite (chain_right _ _ _ _ _ Hpay). reflexivity. }
  apply (parse_at_offset_zero _ _ "").
  apply (cmd_then_whitespace _ ""); [| reflexivity].
  unfold uciEngineCmd.
  pick 4 uciRegisterCmd;
    [exact Hcmd | rewrite Hcmd; reflexivity | reflexivity].
Qed.

(** [register name <text>] and [register code <text>] keep the text of
    the line as it is, inner spaces included, for every text with no line
    break in it that does not start with whitespace. *)
Theorem register_keeps_the_text (text : string) :
  allChars isLineChar text = true ->
  startsWithWhitespace text = false ->
  parseUCIEngineCmd ("register name " ++ text)
  = E.Right (UCIEngineCommand.Register (UCIRegister.Name text)) /\
  parseUCIEngineCmd ("register code " ++ text)
  = E.Right (UCIEngineCommand.Register (UCIRegister.Code text)).
Proof.
  intros Ht Hs. split.
  - apply (register_with ("name " ++ text)); [reflexivity |].
    assert (H : uciRegisterName ("name " ++ text)
                = E.Right (UCIRegister.Name text, ""))
      by exact (register_payload "name" text UCIRegister.Name Ht Hs).
    unfold uciRegister.
    pick 2 uciRegisterName; [exact H | rewrite H; reflexivity | reflexivity].
  - apply (register_with ("code " ++ text)); [reflexivity |].
    assert (H : uciRegisterCode ("code " ++ text)
                = E.Right (UCIRegister.Code text, ""))
      by exact (register_payload "code" text UCIRegister.Code Ht Hs).
    unfold uciRegister.
    pick 1 uciRegisterCode; [exact H | rewrite H; reflexivity | reflexivity].
Qed.

Lemma word_starts_no_whitespace (w : string) :
  isWord w = true -> forall tail, startsWithWhitespace (w ++ tail) = false.
Proof.
  unfold isWord. intros H tail. apply andb_prop in H as [Hne Hall].
  destruct w as [| c w]; [discriminate |].
  cbn [allChars] in Hall. apply andb_prop in Hall as [Hc _].
  cbn [append startsWithWhitespace]. unfold notWhitespace in Hc.
  now apply negb_true_iff in Hc.
Qed.

Lemma position_moves (w : string) (ws : list string) :
  Forall (fun v => isWord v = true) (w :: ws) ->
  P.option [] uciPositionMoves ("moves " ++ join " " (w :: ws))
  = E.Right (w :: ws, "").
Proof.
  intros Hall.
  assert (Hs : startsWithWhitespace (join " " (w :: ws)) = false).
  { rewrite join_spaced. apply word_starts_no_whitespace.
    now inversion Hall. }
  unfold P.option, P._alt, uciPositionMoves.
  rewrite (chain_right _ _ _ _ _ (str_append "moves" (" " ++ join " " (w :: ws)))).
  rewrite (chain_right _ _ _ _ _ (whitespaces_one_space _ Hs)).
  rewrite (chain_right _ _ _ _ _ (moves_join w ws Hall)).
  reflexivity.
Qed.

Lemma position_with (x rest : string) (pos : UCIPosition.t)
    (ms : list string) (gap : string) :
  startsWithWhitespace x = false ->
  P.choice [uciPositionFen; uciPositionStartPos] x = E.Right (pos, gap ++ rest) ->
  P.whitespaces (gap ++ rest) = E.Right (gap, rest) ->
  P.option [] uciPositionMoves rest = E.Right (ms, "") ->
  parseUCIEngineCmd ("position " ++ x)
  = E.Right (UCIEngineCommand.Position pos ms).
Proof.
  intros Hx Hpos Hgap Hmoves.
  assert (Hcmd : uciPositionCmd ("position " ++ x)
                 = E.Right (UCIEngineCommand.Position pos ms, "")).
  { unfold uciPositionCmd, P.expected.
    rewrite (chain_right _ _ _ _ _ (str_append "position" (" " ++ x))).
    rewrite (chain_right _ _ _ _ _ (whitespaces_one_space x Hx)).
    rewrite (chain_right _ _ _ _ _ Hpos).
    rewrite (chain_right _ _ _ _ _ Hgap).
    rewrite (chain_right _ _ _ _ _ Hmoves). reflexivity. }
  apply (parse_at_offset_zero _ _ "").
  apply (cmd_then_whitespace _ ""); [| reflexivity].
  unfold uciEngineCmd.
  pick 6 uciPositionCmd;
    [exact Hcmd | rewrite Hcmd; reflexivity | reflexivity].
Qed.

(** [position startpos moves m1 ... mk]: the start position with exactly
    the moves of the line, in order. *)
Theorem position_startpos_moves (w : string) (ws : list string) :
  Forall (fun v => isWord v = true) (w :: ws) ->
  parseUCIEngineCmd ("position startpos moves " ++ join " " (w :: ws))
  = E.Right (UCIEngineCommand.Position UCIPosition.StartPos (w :: ws)).
Proof.
  intros Hall.
  apply (position_with ("startpos moves " ++ join " " (w :: ws))
           ("moves " ++ join " " (w :: ws)) UCIPosition.StartPos (w :: ws) " ").
  - reflexivity.
  - assert (H : uciPositionStartPos ("startpos moves " ++ join " " (w :: ws))
                = E.Right (UCIPosition.StartPos,
                           " " ++ "moves " ++ join " " (w :: ws))).
    { unfold uciPositionStartPos, P._map.
      change ("startpos moves " ++ join " " (w :: ws))
        with ("startpos" ++ " moves " ++ join " " (w :: ws)).
      rewrite str_append. reflexivity. }
    pick 1 uciPositionStartPos;
      [exact H | rewrite H; reflexivity | reflexivity].
  - apply whitespaces_one_space. reflexivity.
  - apply position_moves. exact Hall.
Qed.

Lemma newline_fails c x :
  isLineChar c = true -> E.isLeft (P.newline (String c x)) = true.
Proof.
  unfold isLineChar. intros H. apply andb_prop in H as [Hlf Hcr].
  apply negb_true_iff in Hlf, Hcr.
  unfold P.newline, P.choice. cbn [reduceRight].
  unfold P._alt, P._zero, P.str, startsWith, P.char, P.satisfy.
  cbn [E.alt String.prefix].
  destruct (ascii_dec CR c) as [<- | _].
  - rewrite Ascii.eqb_refl in Hcr. discriminate.
  - cbn [E.alt]. rewrite Hlf. reflexivity.
Qed.

Lemma str_other_char (c d : ascii) (s x : string) :
  Ascii.eqb d c = false -> E.isLeft (P.str (String c s) (String d x)) = true.
Proof.
  intros H. unfold P.str, startsWith. cbn [String.prefix].
  destruct (ascii_dec c d) as [<- | _]; [| reflexivity].
  rewrite Ascii.eqb_refl in H. discriminate.
Qed.

Lemma fenEnd_inside c x :
  isFenChar c = true -> E.isLeft (fenEnd (String c x)) = true.
Proof.
  unfold isFenChar. intros H. apply andb_prop in H as [Hline Hm].
  apply negb_true_iff in Hm.
  pose proof (newline_fails c x Hline) as Hnl.
  pose proof (str_other_char "m" c "oves" x Hm) as Hstr.
  unfold fenEnd, P.lookahead, P.choice. cbn [reduceRight].
  unfold P._alt, P._zero. cbn [E.alt P.eof].
  destruct (P.newline (String c x)); [| discriminate].
  cbn [E.alt].
  destruct (P.str "moves" (String c x)); [reflexivity | discriminate].
Qed.

Lemma fen_char_not_lf c : isFenChar c = true -> includes (chr LF) c = false.
Proof.
  unfold isFenChar. intros H. apply andb_prop in H as [H _].
  now apply line_char_not_lf.
Qed.

Lemma fen_inside (t tail : string) :
  allChars isFenChar t = true -> insideText fenEnd t tail.
Proof.
  induction t as [| c t IH]; [intros _; exact I |].
  cbn [allChars]. intros H. apply andb_prop in H as [Hc Ht].
  cbn [insideText append].
  repeat split; [now apply fen_char_not_lf | now apply fenEnd_inside | auto].
Qed.

Lemma allChars_app (f : ascii -> bool) (a b : string) :
  allChars f a = true -> allChars f b = true -> allChars f (a ++ b) = true.
Proof.
  intros Ha Hb. induction a as [| c a IH]; [exact Hb |].
  cbn [allChars append] in *. apply andb_prop in Ha as [Hc Ha].
  rewrite Hc. cbn [andb]. auto.
Qed.

Lemma starts_app (a b : string) :
  a <> "" -> startsWithWhitespace (a ++ b) = startsWithWhitespace a.
Proof. destruct a; [congruence | reflexivity]. Qed.

(** [position fen <fen>]: the FEN text runs to the keyword "moves" or to
    the end of the line.  With moves after it, the space before the
    keyword stays part of the FEN text. *)
Theorem position_fen_keeps_the_space (fen w : string) (ws : list string) :
  allChars isFenChar fen = true ->
  fen <> "" ->
  startsWithWhitespace fen = false ->
  Forall (fun v => isWord v = true) (w :: ws) ->
  parseUCIEngineCmd ("position fen " ++ fen)
  = E.Right (UCIEngineCommand.Position (UCIPosition.FEN fen) []) /\
  parseUCIEngineCmd
    ("position fen " ++ fen ++ " moves " ++ join " " (w :: ws))
  = E.Right
      (UCIEngineCommand.Position (UCIPosition.FEN (fen ++ " ")) (w :: ws)).
Proof.
  intros Hfen Hne Hs Hall. split.
  - assert (Hread : uciPositionFen ("fen " ++ fen)
                    = E.Right (UCIPosition.FEN fen, "")).
    { unfold uciPositionFen. fold fenEnd.
      change ("fen " ++ fen) with ("fen" ++ " " ++ fen).
      rewrite (chain_right _ _ _ _ _ (str_append "fen" (" " ++ fen))).
      rewrite (chain_right _ _ _ _ _ (whitespaces_one_space fen Hs)).
      pose proof (read_text fenEnd fen "" "" ""
                    (fen_inside fen "" Hfen) eq_refl) as H.
      rewrite append_nil_r in H.
      rewrite (chain_right _ _ _ _ _ H). reflexivity. }
    apply (position_with ("fen " ++ fen) "" (UCIPosition.FEN fen) [] "");
      try reflexivity.
    pick 0 uciPositionFen; [exact Hread | rewrite Hread; reflexivity | reflexivity].
  - assert (Hs' : startsWithWhitespace
                    ((fen ++ " ") ++ "moves " ++ join " " (w :: ws)) = false).
    { rewrite append_assoc, starts_app; assumption. }
    assert (Hend : fenEnd ("moves " ++ join " " (w :: ws))
                   = E.Right ("moves", "moves " ++ join " " (w :: ws))).
    { unfold fenEnd, P.lookahead.
      assert (H : P.str "moves" ("moves " ++ join " " (w :: ws))
                  = E.Right ("moves", " " ++ join " " (w :: ws)))
        by exact (str_append "moves" (" " ++ join " " (w :: ws))).
      pick 0 (P.str "moves"); [| rewrite H; reflexivity | reflexivity].
      rewrite H. reflexivity. }
    assert (Hread : uciPositionFen
                      ("fen " ++ (fen ++ " ") ++ "moves " ++ join " " (w :: ws))
                    = E.Right (UCIPosition.FEN (fen ++ " "),
                               "moves " ++ join " " (w :: ws))).
    { unfold uciPositionFen. fold fenEnd.
      change ("fen " ++ (fen ++ " ") ++ "moves " ++ join " " (w :: ws))
        with ("fen" ++ " " ++ (fen ++ " ") ++ "moves " ++ join " " (w :: ws)).
      rewrite (chain_right _ _ _ _ _ (str_append "fen" _)).
      rewrite (chain_right _ _ _ _ _ (whitespaces_one_space _ Hs')).
      assert (Hin : insideText fenEnd (fen ++ " ")
                      ("moves " ++ join " " (w :: ws))).
      { apply fen_inside. apply allChars_app; [exact Hfen | reflexivity]. }
      rewrite (chain_right _ _ _ _ _ (read_text fenEnd _ _ _ _ Hin Hend)).
      reflexivity. }
    assert (Heq : "position fen " ++ fen ++ " moves " ++ join " " (w :: ws)
                  = "position " ++ "fen " ++ (fen ++ " ")
                      ++ "moves " ++ join " " (w :: ws)).
    { cbn [append]. do 13 f_equal. rewrite append_assoc. reflexivity. }
    rewrite Heq.
    apply (position_with _ ("moves " ++ join " " (w :: ws))
             (UCIPosition.FEN (fen ++ " ")) (w :: ws) "").
    + reflexivity.
    + pick 0 uciPositionFen;
        [exact Hread | rewrite Hread; reflexivity | reflexivity].
    + apply whitespaces_none. reflexivity.
    + apply position_moves. exact Hall.
Qed.

Lemma id_char_not_lf c : isIdChar c = true -> includes (chr LF) c = false.
Proof.
  unfold isIdChar. intros H. apply andb_prop in H as [H _].
  now apply line_char_not_lf.
Qed.

(** Past the whitespace at the head of what is left of an option id
    stands one of its characters. *)
Lemma id_first_character (s tail : string) :
  isOptionId s = true ->
  exists d r, dropWhile isWhitespace (s ++ tail) = String d r
              /\ isIdChar d = true.
Proof.
  induction s as [| c s IH]; [discriminate |].
  intros H. destruct s as [| c' s'].
  - cbn [isOptionId] in H. apply andb_prop in H as [Hid Hnw].
    unfold notWhitespace in Hnw. apply negb_true_iff in Hnw.
    exists c, tail. cbn [append dropWhile]. rewrite Hnw. split; [reflexivity | exact Hid].
  - change (isOptionId (String c (String c' s')))
      with (isIdChar c && isOptionId (String c' s')) in H.
    apply andb_prop in H as [Hid Hrest].
    cbn [append dropWhile]. destruct (isWhitespace c) eqn:Hw.
    + apply IH. exact Hrest.
    + exists c, (String c' s' ++ tail). split; [reflexivity | exact Hid].
Qed.

Lemma id_is_line_text (s : string) :
  isOptionId s = true -> allChars isIdChar s = true.
Proof.
  induction s as [| c s IH]; [discriminate |].
  intros H. destruct s as [| c' s'].
  - cbn [isOptionId] in H. apply andb_prop in H as [Hid _].
    cbn [allChars]. now rewrite Hid.
  - change (isOptionId (String c (String c' s')))
      with (isIdChar c && isOptionId (String c' s')) in H.
    apply andb_prop in H as [Hid Hrest].
    change (allChars isIdChar (String c (String c' s')))
      with (isIdChar c && allChars isIdChar (String c' s')).
    rewrite Hid. cbn [andb]. apply IH. exact Hrest.
Qed.

Lemma idEnd_inside (s tail : string) :
  isOptionId s = true -> E.isLeft (idEnd (s ++ tail)) = true.
Proof.
  intros Hs.
  destruct (id_first_character s tail Hs) as (d & r & Hdrop & Hd).
  pose proof (id_is_line_text s Hs) as Hall.
  destruct s as [| c s]; [discriminate |].
  cbn [allChars] in Hall. apply andb_prop in Hall as [Hc _].
  unfold isIdChar in Hc, Hd.
  apply andb_prop in Hc as [Hline _]. apply andb_prop in Hd as [_ Hv].
  apply negb_true_iff in Hv.
  pose proof (newline_fails c (s ++ tail) Hline) as Hnl.
  pose proof (str_other_char "v" d "alue" r Hv) as Hstr.
  unfold idEnd, P.lookahead, P.choice. cbn [reduceRight].
  unfold P._alt, P._zero. cbn [append E.alt P.eof].
  destruct (P.newline (String c (s ++ tail))); [| discriminate].
  cbn [E.alt]. unfold P._chain, always.
  rewrite whitespaces_run. cbn [E.chain].
  change (String c (s ++ tail)) with (String c s ++ tail).
  rewrite Hdrop.
  destruct (P.str "value" (String d r)); [reflexivity | discriminate].
Qed.

Lemma id_inside (s tail : string) :
  isOptionId s = true -> insideText idEnd s tail.
Proof.
  induction s as [| c s IH]; [discriminate |].
  intros H. pose proof (idEnd_inside (String c s) tail H) as Hfail.
  pose proof (id_is_line_text (String c s) H) as Hall.
  cbn [allChars] in Hall. apply andb_prop in Hall as [Hc _].
  cbn [insideText]. split; [now apply id_char_not_lf |].
  split; [exact Hfail |].
  destruct s as [| c' s']; [exact I |].
  apply IH.
  change (isOptionId (String c (String c' s')))
    with (isIdChar c && isOptionId (String c' s')) in H.
  now apply andb_prop in H as [_ H].
Qed.

(** [setoption name <id> value <text>]: the id is read up to the
    whitespace before the keyword "value", the value is the rest of the
    line as it is.  The id may hold spaces, but not the letter v, at
    which the keyword is looked for. *)
Theorem setoption_reads_id_and_value (id value : string) :
  isOptionId id = true ->
  startsWithWhitespace id = false ->
  allChars isLineChar value = true ->
  startsWithWhitespace value = false ->
  parseUCIEngineCmd ("setoption name " ++ id ++ " value " ++ value)
  = E.Right (UCIEngineCommand.SetOption id (Some value)).
Proof.
  intros Hid Hids Hval Hvals.
  assert (Hs : startsWithWhitespace (id ++ " value " ++ value) = false).
  { rewrite starts_app; [exact Hids | destruct id; discriminate]. }
  assert (Hend : idEnd (" value " ++ value)
                 = E.Right ("value", " value " ++ value)).
  { unfold idEnd, P.lookahead.
    assert (H : P._chain P.whitespaces (always (P.str "value"))
                  (" value " ++ value)
                = E.Right ("value", " " ++ value)).
    { rewrite (chain_right _ _ _ _ _
                 (whitespaces_one_space ("value " ++ value) eq_refl)).
      exact (str_append "value" (" " ++ value)). }
    pick 0 (P._chain P.whitespaces (always (P.str "value")));
      [| rewrite H; reflexivity | reflexivity].
    rewrite H. reflexivity. }
  assert (Hname : uciSetOptionId ("name " ++ id ++ " value " ++ value)
                  = E.Right (id, " value " ++ value)).
  { unfold uciSetOptionId. fold idEnd.
    change ("name " ++ id ++ " value " ++ value)
      with ("name" ++ " " ++ id ++ " value " ++ value).
    rewrite (chain_right _ _ _ _ _ (str_append "name" _)).
    rewrite (chain_right _ _ _ _ _ (whitespaces_one_space _ Hs)).
    rewrite (chain_right _ _ _ _ _
               (read_text idEnd id _ _ _ (id_inside id _ Hid) Hend)).
    reflexivity. }
  assert (Hvalue : uciSetOptionValue ("value " ++ value)
                   = E.Right (value, "")).
  { unfold uciSetOptionValue. fold lineEnd.
    change ("value " ++ value) with ("value" ++ " " ++ value).
    rewrite (chain_right _ _ _ _ _ (str_append "value" _)).
    rewrite (chain_right _ _ _ _ _ (whitespaces_one_space _ Hvals)).
    rewrite (chain_right _ _ _ _ _ (rest_of_line_eof value Hval)).
    reflexivity. }
  assert (Hcmd : uciSetOptionCmd
                   ("setoption name " ++ id ++ " value " ++ value)
                 = E.Right (UCIEngineCommand.SetOption id (Some value), "")).
  { unfold uciSetOptionCmd, P.expected.
    change ("setoption name " ++ id ++ " value " ++ value)
      with ("setoption" ++ " " ++ "name " ++ id ++ " value " ++ value).
    rewrite (chain_right _ _ _ _ _ (str_append "setoption" _)).
    rewrite (chain_right _ _ _ _ _
               (whitespaces_one_space
                  ("name " ++ id ++ " value " ++ value) eq_refl)).
    rewrite (chain_right _ _ _ _ _ Hname).
    rewrite (chain_right _ _ _ _ _
               (whitespaces_one_space ("value " ++ value) eq_refl)).
    rewrite (chain_right _ _ _ _ _ Hvalue). reflexivity. }
  apply (parse_at_offset_zero _ _ "").
  apply (cmd_then_whitespace _ ""); [| reflexivity].
  unfold uciEngineCmd.
  pick 3 uciSetOptionCmd;
    [exact Hcmd | rewrite Hcmd; reflexivity | reflexivity].
Qed.

End CommandLines.

Lemma go_numeric_parameter_witness :
  parseUCIEngineCmd "go movestogo 40"
  = E.Right (UCIEngineCommand.Go [UCIGoParameter.MovesToGo (toNumber "40")]) /\
  ((digitsValue 0 "40" < 2 ^ 53)%Z -> toNumber "40" = ofInt 40).
Proof.
  apply (go_numeric_parameter "movestogo" UCIGoParameter.MovesToGo "40");
    [cbn; tauto | reflexivity | discriminate].
Defined.

(** Beyond [2^53] the parameter carries the rounded value, and a run too
    long for a double carries the infinity. *)
Example go_parameter_is_a_double :
  parseUCIEngineCmd "go depth 9007199254740993"
  = E.Right
      (UCIEngineCommand.Go [UCIGoParameter.Depth (ofInt 9007199254740992)]) /\
  parseUCIEngineCmd ("go nodes 1" ++ zeros 309)
  = E.Right (UCIEngineCommand.Go [UCIGoParameter.Nodes (Infinity false)]).
Proof. split; vm_compute; reflexivity. Qed.

Lemma register_keeps_the_text_witness :
  parseUCIEngineCmd "register name Jane Q. Public"
  = E.Right (UCIEngineCommand.Register (UCIRegister.Name "Jane Q. Public")) /\
  parseUCIEngineCmd "register code Jane Q. Public"
  = E.Right (UCIEngineCommand.Register (UCIRegister.Code "Jane Q. Public")).
Proof.
  apply (register_keeps_the_text "Jane Q. Public"); reflexivity.
Defined.

Lemma position_startpos_moves_witness :
  parseUCIEngineCmd "position startpos moves e2e4 e7e5"
  = E.Right (UCIEngineCommand.Position UCIPosition.StartPos ["e2e4"; "e7e5"]).
Proof.
  apply (position_startpos_moves "e2e4" ["e7e5"]). repeat constructor.
Defined.

Lemma position_fen_keeps_the_space_witness :
  parseUCIEngineCmd "position fen 8/8/8/8/8/8/8/K6k w - - 0 1"
  = E.Right
      (UCIEngineCommand.Position
         (UCIPosition.FEN "8/8/8/8/8/8/8/K6k w - - 0 1") []) /\
  parseUCIEngineCmd "position fen 8/8/8/8/8/8/8/K6k w - - 0 1 moves a1a2"
  = E.Right
      (UCIEngineCommand.Position
         (UCIPosition.FEN "8/8/8/8/8/8/8/K6k w - - 0 1 ") ["a1a2"]).
Proof.
  apply (position_fen_keeps_the_space "8/8/8/8/8/8/8/K6k w - - 0 1"
           "a1a2" []);
    solve [reflexivity | discriminate | repeat constructor].
Defined.

Lemma setoption_reads_id_and_value_witness :
  parseUCIEngineCmd "setoption name Clear Hash value 3 MB now"
  = E.Right (UCIEngineCommand.SetOption "Clear Hash" (Some "3 MB now")).
Proof.
  apply (setoption_reads_id_and_value "Clear Hash" "3 MB now"); reflexivity.
Defined.

(** Where the id holds the text "value", the id ends there. *)
Example setoption_id_holding_value :
  parseUCIEngineCmd "setoption name Devalue value 1"
  = E.Right (UCIEngineCommand.SetOption "De" (Some "value 1")).
Proof. vm_compute. reflexivity. Qed.

(* ================================================================== *)
(** * Further properties of the protocol layer *)
(* ================================================================== *)

Section MoreProtocol.

Import Protocol.

Variable showNumber : number -> string.

Lemma lastChar_append_lf (s : string) : lastChar (s ++ chr LF) = Some LF.
Proof.
  induction s as [| c s IH]; [reflexivity |].
  cbn [append]. destruct s as [| c' s']; [reflexivity |].
  change (lastChar (String c (String c' s' ++ chr LF)))
    with (lastChar (String c' s' ++ chr LF)).
  exact IH.
Qed.

(** [withLine] leaves the empty text empty, makes every other text end
    with exactly the line feed it lacked, and doing it twice changes
    nothing more. *)
Theorem withLine_ends_the_line (s : string) :
  withLine "" = "" /\
  (s <> "" -> lastChar (withLine s) = Some LF) /\
  withLine (withLine s) = withLine s.
Proof.
  split; [reflexivity |].
  assert (Hlast : s <> "" -> lastChar (withLine s) = Some LF).
  { intros Hne. unfold withLine. destruct (lastChar s) as [c |] eqn:Hl.
    - destruct (Ascii.eqb c LF) eqn:Hc.
      + apply Ascii.eqb_eq in Hc. now subst c.
      + apply lastChar_append_lf.
    - destruct s as [| c s]; [congruence |].
      exfalso. clear Hne. revert c Hl.
      induction s as [| c' s IH]; intros c Hl; [discriminate |].
      apply (IH c'). exact Hl. }
  split; [exact Hlast |].
  destruct s as [| c s]; [reflexivity |].
  assert (Hne : String c s <> "") by discriminate.
  specialize (Hlast Hne). unfold withLine at 1. rewrite Hlast.
  reflexivity.
Qed.

Lemma optionalField_dropEmpty key v :
  optionalField key (dropEmpty v) = optionalField key v.
Proof.
  destruct v as [s |]; [| reflexivity].
  cbn [dropEmpty optionalField truthy].
  destruct (String.eqb s "") eqn:Hs; cbn [negb truthy optionalField];
    [reflexivity | now rewrite Hs].
Qed.

(** A field that is the empty string is serialized like an absent one:
    the [default], [min], [max] and [var] of an option, and the ponder
    move of a best move. *)
Theorem empty_fields_are_omitted (o : UCIOption.t) (move : string) :
  serializeGUICmd showNumber (UCIGUICommand.Option (dropEmptyFields o))
  = serializeGUICmd showNumber (UCIGUICommand.Option o) /\
  serializeGUICmd showNumber (UCIGUICommand.BestMove move (Some ""))
  = serializeGUICmd showNumber (UCIGUICommand.BestMove move None).
Proof.
  split; [| reflexivity].
  unfold serializeGUICmd, tokenizeGUICmd, tokenizeOption, dropEmptyFields.
  cbn [UCIOption.name UCIOption.type UCIOption.default UCIOption.min
       UCIOption.max UCIOption.var].
  rewrite !optionalField_dropEmpty. reflexivity.
Qed.

Context {S : Type}.
Variable h : UCIHandler S.

(** Only [Uci] and [IsReady] are answered: a dispatch that resolves
    yields [ReadyOk] for [IsReady] and no response at all for every
    command but these two; [Register] does not even reach the handler. *)
Theorem only_uci_and_isready_respond (cmd : UCIEngineCommand.t) (s s' : S)
    (rs : list UCIGUICommand.t) :
  protocolHandler h cmd s = Resolved rs s' ->
  match cmd with
  | UCIEngineCommand.UCI => exists r, onInit h s = Resolved r s' /\ rs = uciResponses r
  | UCIEngineCommand.IsReady => rs = [UCIGUICommand.ReadyOk]
  | UCIEngineCommand.Register _ => rs = [] /\ s' = s
  | _ => rs = []
  end.
Proof.
  destruct cmd; cbn [protocolHandler]; unfold then_; intros H;
    try (match type of H with
         | context [match ?m with _ => _ end] => destruct m eqn:?
         end; [| discriminate]);
    try (injection H as <- <-);
    try reflexivity.
  - eexists. split; reflexivity.
  - split; reflexivity.
Qed.

(** A line that does not parse never reaches the handler: its state is
    untouched and nothing goes to the output stream; where [prepare] was
    given an error stream the one failure message goes to it, ended by a
    line feed, and where it was not, nothing is written at all. *)
Theorem unparseable_line_goes_to_error_stream (error : bool) (line : string)
    (e : string) (s : S) :
  parseUCIEngineCmd line = E.Left e ->
  handleLine showNumber error h line s
  = ((if error then ToError (parseFailure ++ chr LF) else Unwritten), s).
Proof.
  intros H. unfold handleLine. rewrite H.
  rewrite (parse_failure_text line e H). reflexivity.
Qed.

(** A handler method that throws an [Error] costs the line its answer:
    the message goes to the error stream, if there is one, behind
    "Unexpected error: ", and nothing goes to the output stream. *)
Theorem handler_failure_goes_to_error_stream (error : bool) (line : string)
    (cmd : UCIEngineCommand.t) (message : string) (s s' : S) :
  parseUCIEngineCmd line = E.Right cmd ->
  protocolHandler h cmd s = Rejected (Some message) s' ->
  handleLine showNumber error h line s
  = ((if error then ToError (withLine ("Unexpected error: " ++ message))
      else Unwritten), s').
Proof.
  intros Hparse Hrej. unfold handleLine, wrapStrErr.
  rewrite Hparse, Hrej. reflexivity.
Qed.

End MoreProtocol.

Lemma only_uci_and_isready_respond_witness :
  Protocol.protocolHandler stubHandler UCIEngineCommand.Stop tt
  = Protocol.Resolved [] tt.
Proof.
  pose proof (only_uci_and_isready_respond stubHandler UCIEngineCommand.Stop
                tt tt [] eq_refl) as H.
  cbn in H. reflexivity.
Defined.

Lemma unparseable_line_goes_to_error_stream_witness :
  Protocol.handleLine (fun _ => "") true stubHandler "hello" tt
  = (Protocol.ToError (parseFailure ++ chr LF), tt) /\
  Protocol.handleLine (fun _ => "") false stubHandler "hello" tt
  = (Protocol.Unwritten, tt).
Proof.
  split.
  - apply (unparseable_line_goes_to_error_stream (fun _ => "") stubHandler
             true "hello" parseFailure tt).
    vm_compute. reflexivity.
  - apply (unparseable_line_goes_to_error_stream (fun _ => "") stubHandler
             false "hello" parseFailure tt).
    vm_compute. reflexivity.
Defined.

Lemma handler_failure_goes_to_error_stream_witness :
  Protocol.handleLine (fun _ => "") true failingHandler "go infinite" 0
  = (Protocol.ToError ("Unexpected error: no robot" ++ chr LF), 1).
Proof.
  apply (handler_failure_goes_to_error_stream (fun _ => "") failingHandler
           true "go infinite" (UCIEngineCommand.Go [UCIGoParameter.Infinite])
           "no robot" 0 1).
  - vm_compute. reflexivity.
  - reflexivity.
Defined.

(* ================================================================== *)
(** * Further properties of the proxy handler *)
(* ================================================================== *)

Section MoreProxy.

Import Proxy.

Variable chess_load : string -> option Thrown.
Variable chess_replay : string -> list string -> option Thrown.
Variable chess_ascii : string -> list string -> string.
Variable chess_fen : string -> list string -> string.
Variable chess_moves : string -> list string -> string.
Variable chess_san : string -> list string -> string -> E.Either Thrown string.
Variable JSON_stringify : list string -> string.
Variable abortError : Thrown.
Variable onQuit_ : Task.

Local Abbreviation step :=
  (Proxy.step chess_load chess_replay chess_ascii chess_fen chess_moves
              chess_san JSON_stringify abortError onQuit_).
Local Abbreviation run :=
  (Proxy.run chess_load chess_replay chess_ascii chess_fen chess_moves
             chess_san JSON_stringify abortError onQuit_).
Local Abbreviation loadBoard :=
  (Proxy.loadBoard chess_replay chess_moves JSON_stringify).
Local Abbreviation onGo :=
  (Proxy.onGo chess_load chess_replay chess_ascii chess_fen chess_moves
              JSON_stringify abortError).

Ltac cases :=
  repeat match goal with
         | |- context [match ?x with _ => _ end] => destruct x eqn:?
         end.

(** The process, once exited, does nothing more. *)
Lemma run_after_exit evs : forall st code,
  exited st = Some code -> run st evs = (st, []).
Proof.
  induction evs as [| ev evs IH]; intros st code H; [reflexivity |].
  cbn [Proxy.run]. unfold Proxy.step at 1. rewrite H.
  rewrite (IH st code H). reflexivity.
Qed.

(** Sequencing violation: a [Go] that arrives while a search is in
    flight, pending or being written out, sends no request, ends the
    process with code 1, and no later event has any effect. *)
Theorem second_go_is_fatal (st : Handler) (r : Request)
    (params : list UCIGoParameter.t) (evs : list Event) :
  exited st = None ->
  robotRequest st = Some r ->
  exited (fst (step st (OnGo params))) = Some 1%Z /\
  last (snd (step st (OnGo params))) (LogDebug "") = ProcessExit 1 /\
  Forall (fun e => isQuiet e = true) (snd (step st (OnGo params))) /\
  run (fst (step st (OnGo params))) evs = (fst (step st (OnGo params)), []).
Proof.
  intros Hlive Hreq.
  assert (Hstep : step st (OnGo params)
                  = (exit 1 st,
                     [LogDebug "Received a go request while another go request active!";
                      LogDebug "If client was respecting UCI, then we have a severe bug.";
                      LogDebug "I don't know what to do, so I guess I'll die.";
                      ProcessExit 1])).
  { unfold Proxy.step, Proxy.onGo. rewrite Hlive, Hreq. reflexivity. }
  rewrite Hstep. cbn [fst snd].
  repeat split.
  - repeat constructor.
  - apply (run_after_exit evs _ 1%Z). reflexivity.
Qed.

Lemma loadBoard_no_fetch st e :
  In e (loadBoard st) -> isFetch e = false.
Proof.
  unfold Proxy.loadBoard. cases; cbn [In]; intros H;
    repeat (destruct H as [<- | H]; [reflexivity |]); contradiction.
Qed.

Lemma runSync_no_fetch (t : Task) e : In e (runSync t) -> isFetch e = false.
Proof.
  induction t as [| action k IH | k IH | code]; cbn [runSync In]; intros H.
  - contradiction.
  - destruct H as [<- | H]; [reflexivity | now apply IH].
  - contradiction.
  - destruct H as [<- | H]; [reflexivity | contradiction].
Qed.

Lemma caught_no_fetch err : isFetch (caught err) = false.
Proof. destruct err; reflexivity. Qed.

(** A request goes to the robot only from a [Go], and only when no
    search is in flight and the signal is not aborted; that [Go] leaves
    the request pending.  Loading a position, a new game, a stop or any
    other event never starts a search. *)
Theorem only_go_asks_the_robot (st : Handler) (ev : Event) (e : Effect) :
  In e (snd (step st ev)) ->
  isFetch e = true ->
  (exists params, ev = OnGo params) /\
  exited st = None /\
  robotRequest st = None /\
  aborted st = false /\
  robotRequest (fst (step st ev)) = Some Pending.
Proof.
  unfold Proxy.step, Proxy.onGo, Proxy.onStop, Proxy.onQuit, Proxy.onResponse.
  intros Hin Hf.
  assert (Hno : forall l, (forall x, In x l -> isFetch x = false) ->
                          In e l -> False).
  { intros l Hl Hi. rewrite (Hl e Hi) in Hf. discriminate. }
  revert Hin. cases; cbn [fst snd]; intros Hin.
  all: try (exfalso; revert Hin; apply Hno; intros x Hx;
            cbn [In] in Hx; rewrite ?in_app_iff in Hx; cbn [In] in Hx;
            repeat match goal with
                   | H : _ \/ _ |- _ => destruct H as [H | H]
                   end;
            subst;
            first [ reflexivity | apply caught_no_fetch
                  | eapply loadBoard_no_fetch; eassumption
                  | eapply runSync_no_fetch; eassumption
                  | contradiction ]).
  all: repeat split; eauto.
Qed.

Lemma countIf_app f (a b : list Effect) :
  countIf f (a ++ b) = countIf f a + countIf f b.
Proof. unfold countIf. now rewrite filter_app, length_app. Qed.

Lemma loadBoard_count f st :
  (forall s, f (LogDebug s) = false) -> countIf f (loadBoard st) = 0.
Proof.
  intros Hf. unfold Proxy.loadBoard, countIf.
  cases; cbn [filter]; rewrite ?Hf; reflexivity.
Qed.

Lemma caught_count f err l :
  (forall s, f (LogDebug s) = false) ->
  countIf f (caught err :: l) = countIf f l.
Proof.
  intros Hf. unfold countIf. destruct err; cbn [caught filter];
    rewrite Hf; reflexivity.
Qed.

Lemma runSync_count f (t : Task) :
  (forall s, f (Teardown s) = false) ->
  (forall c, f (ProcessExit c) = false) ->
  countIf f (runSync t) = 0.
Proof.
  intros Ht He. unfold countIf.
  induction t as [| action k IH | k IH | code]; cbn [runSync filter];
    rewrite ?Ht, ?He; auto.
Qed.

Lemma countIf_cons f (x : Effect) (l : list Effect) :
  countIf f (x :: l) = (if f x then 1 else 0) + countIf f l.
Proof. unfold countIf. cbn [filter]. destruct (f x); reflexivity. Qed.

Lemma countIf_nil f : countIf f [] = 0.
Proof. reflexivity. Qed.

Lemma caught_not_best err : isBestMove (caught err) = false.
Proof. destruct err; reflexivity. Qed.

Lemma step_accounts (st : Handler) (ev : Event) :
  countIf isBestMove (snd (step st ev)) + owed (fst (step st ev))
  <= countIf isFetch (snd (step st ev)) + owed st.
Proof.
  unfold Proxy.step, Proxy.onGo, Proxy.onStop, Proxy.onQuit, Proxy.onResponse.
  cases; cbn [fst snd]; unfold owed;
    cbn [robotRequest setRequest setPosition setInitialized abort exit];
    repeat match goal with
           | H : robotRequest st = _ |- _ => rewrite H
           end;
    repeat (rewrite ?countIf_app, ?countIf_cons, ?countIf_nil,
                    ?caught_not_best, ?caught_no_fetch);
    rewrite ?loadBoard_count, ?runSync_count by reflexivity;
    cbn [isBestMove isFetch]; lia.
Qed.

(** Every best move answers a request: in any run, from any state, the
    best moves sent never outnumber the requests sent to the robot plus
    the one that may have been in flight at the start.  In particular a
    session never sends more best moves than it asked the robot for. *)
Theorem one_best_move_per_request (st : Handler) (evs : list Event) :
  countIf isBestMove (snd (run st evs)) + owed (fst (run st evs))
  <= countIf isFetch (snd (run st evs)) + owed st.
Proof.
  revert st. induction evs as [| ev evs IH]; intros st.
  - cbn. lia.
  - cbn [Proxy.run].
    pose proof (step_accounts st ev) as Hstep.
    destruct (step st ev) as [st1 out1]. cbn [fst snd] in Hstep.
    specialize (IH st1).
    destruct (run st1 evs) as [st2 out2]. cbn [fst snd] in *.
    rewrite !countIf_app. lia.
Qed.



End MoreProxy.

(** [lanToFromTo] loses nothing: the squares and the promotion it returns
    make up the move it was given, whatever its length, and the two
    squares have at most two characters each. *)
Theorem lanToFromTo_splits_the_move (lan : string) :
  match Proxy.lanToFromTo lan with
  | (from, to, promotion) =>
      from ++ to ++ match promotion with Some p => p | None => "" end = lan
      /\ String.length from <= 2 /\ String.length to <= 2
      /\ promotion <> Some ""
  end.
Proof.
  unfold Proxy.lanToFromTo.
  destruct lan as [| a [| b [| c [| d rest]]]]; cbn;
    try (repeat split; first [reflexivity | lia | discriminate]).
  destruct rest as [| e rest]; cbn;
    repeat split; first [reflexivity | lia | discriminate].
Qed.

Lemma second_go_is_fatal_witness :
  Proxy.exited
    (fst (stubRun Proxy.construct [Proxy.OnGo []; Proxy.OnGo []]))
  = Some 1%Z.
Proof.
  exact (proj1
    (second_go_is_fatal
       (fun _ => None) (fun _ _ => None) (fun _ _ => "") (fun f _ => f)
       (fun _ _ => "") (fun _ _ san => E.Right san) (fun _ => "")
       (Some "The signal has been aborted") Proxy.exitGracefully
       (fst (stubRun Proxy.construct [Proxy.OnGo []])) Proxy.Pending [] []
       eq_refl eq_refl)).
Defined.

Lemma only_go_asks_the_robot_witness :
  (exists params, Proxy.OnGo [] = Proxy.OnGo params) /\
  Proxy.exited Proxy.construct = None /\
  Proxy.robotRequest Proxy.construct = None /\
  Proxy.aborted Proxy.construct = false /\
  Proxy.robotRequest (fst (stubStep Proxy.construct (Proxy.OnGo [])))
  = Some Proxy.Pending.
Proof.
  apply (only_go_asks_the_robot
           (fun _ => None) (fun _ _ => None) (fun _ _ => "") (fun f _ => f)
           (fun _ _ => "") (fun _ _ san => E.Right san) (fun _ => "")
           (Some "The signal has been aborted") Proxy.exitGracefully
           Proxy.construct (Proxy.OnGo [])
           (Proxy.Fetch Proxy.startFen "white")).
  - cbn. tauto.
  - reflexivity.
Defined.


(** A chess library that rejects a FEN with a space at its end, as the one
    [position fen ... moves ...] yields: the [Go] throws and the robot is
    not asked. *)
Example go_with_rejected_fen :
  let chess_load f :=
    if String.eqb f "8/8/8/8/8/8/8/K6k b - - 0 1 "
    then Some (Some "Invalid FEN") else None in
  snd (Proxy.run chess_load (fun _ _ => None) (fun _ _ => "") (fun f _ => f)
         (fun _ _ => "") (fun _ _ san => E.Right san) (fun _ => "")
         (Some "The signal has been aborted") Proxy.exitGracefully
         Proxy.construct
         [Proxy.OnInit;
          Proxy.OnLoadPosition
            (UCIPosition.FEN "8/8/8/8/8/8/8/K6k b - - 0 1 ") ["h1h2"];
          Proxy.OnGo []])
  = [Proxy.Throw (Some "Invalid FEN")].
Proof. vm_compute. reflexivity. Qed.

(* ================================================================== *)
(** * Left-associative chains and noise before a command *)
(* ================================================================== *)

Section Chains.

Context {A : Type}.
Variable p : P.Parser A.
Variable op : P.Parser (A -> A -> A).

Lemma chain_fails {B C} (q : P.Parser B) (k : B -> P.Parser C) s :
  E.isLeft (q s) = true -> E.isLeft (P._chain q k s) = true.
Proof.
  unfold P._chain. destruct (q s); [reflexivity | discriminate].
Qed.

Lemma chainl1_rest_folds x s z s' :
  FoldsLeft p op x s z s' ->
  forall fuel,
    String.length s < fuel ->
    P.chainl1_rest fuel p op x s = E.Right (z, s').
Proof.
  induction 1 as [x s Hstop | x s f s1 y s2 z s3 Hop Hp Hlen _ IH];
    intros fuel Hfuel;
    (destruct fuel as [| fuel]; [lia |]); cbn [P.chainl1_rest].
  - unfold P._alt.
    rewrite alt_skip by (apply chain_fails; exact Hstop).
    reflexivity.
  - unfold P._alt.
    assert (Hstep : P._chain op (fun f0 => P._chain p (fun y0 => P._of (f0 x y0))) s
                    = E.Right (f x y, s2)).
    { rewrite (chain_right _ _ _ _ _ Hop).
      rewrite (chain_right _ _ _ _ _ Hp). reflexivity. }
    rewrite (chain_right _ _ _ _ _ Hstep).
    rewrite (IH fuel) by lia. reflexivity.
Qed.

(** [chainl1] folds to the left: the first operand, then each operator
    applied to what was folded so far and to the operand behind it, up to
    the point where no operator with an operand follows. *)
Theorem chainl1_folds_left s0 x s z s' :
  p s0 = E.Right (x, s) ->
  String.length s <= String.length s0 ->
  FoldsLeft p op x s z s' ->
  P.chainl1 p op s0 = E.Right (z, s') /\
  forall d, P.chainl p op d s0 = E.Right (z, s').
Proof.
  intros Hp Hlen Hfold.
  assert (H : P.chainl1 p op s0 = E.Right (z, s')).
  { unfold P.chainl1. rewrite (chain_right _ _ _ _ _ Hp).
    apply chainl1_rest_folds; [exact Hfold | lia]. }
  split; [exact H |].
  intros d. unfold P.chainl, P._alt. rewrite H. reflexivity.
Qed.

End Chains.

Lemma chainl1_folds_left_witness :
  P.chainl1 operand minus "9-3-2" = E.Right (4%Z, "") /\
  forall d, P.chainl operand minus d "9-3-2" = E.Right (4%Z, "").
Proof.
  apply (chainl1_folds_left operand minus "9-3-2" 9%Z "-3-2" 4%Z "");
    [reflexivity | cbn; lia |].
  apply (FoldsLeft_step operand minus 9%Z "-3-2" Z.sub "3-2" 3%Z "-2" 4%Z "");
    [reflexivity | reflexivity | cbn; lia |].
  apply (FoldsLeft_step operand minus 6%Z "-2" Z.sub "2" 2%Z "" 4%Z "");
    [reflexivity | reflexivity | cbn; lia |].
  apply FoldsLeft_stop. reflexivity.
Defined.

Section Noise.

Lemma expected_map_str_fails {B} msg kw (f : string -> B) x :
  E.isLeft (P.str kw x) = true ->
  E.isLeft (P.expected msg (P._map (P.str kw) f) x) = true.
Proof.
  unfold P.expected, P._map. destruct (P.str kw x); [reflexivity | discriminate].
Qed.

Lemma expected_chain_str_fails {B} msg kw (k : string -> P.Parser B) x :
  E.isLeft (P.str kw x) = true ->
  E.isLeft (P.expected msg (P._chain (P.str kw) k) x) = true.
Proof.
  unfold P.expected, P._chain. destruct (P.str kw x); [reflexivity | discriminate].
Qed.

Lemma no_command_starts_here c y :
  startsNoKeyword c = true -> E.isLeft (uciEngineCmdEOF (String c y)) = true.
Proof.
  unfold startsNoKeyword. intros H. apply negb_true_iff in H.
  cbn [includes] in H.
  repeat (apply orb_false_elim in H as [? H]).
  assert (Hcmd : E.isLeft (uciEngineCmd (String c y)) = true).
  { unfold uciEngineCmd.
    rewrite choice_failing_tail.
    - unfold uciUciCmd. apply expected_map_str_fails.
      now apply str_other_char.
    - repeat constructor;
        first [ apply expected_map_str_fails | apply expected_chain_str_fails ];
        now apply str_other_char. }
  unfold uciEngineCmdEOF, P._chain.
  destruct (uciEngineCmd (String c y)); [reflexivity | discriminate].
Qed.

Lemma skipGarbage_noise (pre x : string) :
  allChars startsNoKeyword pre = true ->
  skipGarbage uciEngineCmdEOF (pre ++ x) = skipGarbage uciEngineCmdEOF x.
Proof.
  induction pre as [| c pre IH]; [reflexivity |].
  cbn [allChars]. intros H. apply andb_prop in H as [Hc Hpre].
  cbn [append skipGarbage].
  rewrite (alt_skip _ _ (no_command_starts_here c (pre ++ x) Hc)).
  apply IH. exact Hpre.
Qed.

(** Noise made of characters that start no keyword (whitespace, digits,
    punctuation, most letters) never matters: put before any line, it
    leaves the result of the parse as it is, success or failure. *)
Theorem noise_before_a_line_is_skipped (pre x : string) :
  allChars startsNoKeyword pre = true ->
  parseUCIEngineCmd (pre ++ x) = parseUCIEngineCmd x.
Proof.
  intros H. unfold parseUCIEngineCmd, P.expected.
  rewrite (skipGarbage_noise pre x H). reflexivity.
Qed.

End Noise.

Lemma noise_before_a_line_is_skipped_witness :
  parseUCIEngineCmd ("  " ++ String TAB ">> 42: " ++ "go infinite")
  = parseUCIEngineCmd "go infinite".
Proof.
  exact (noise_before_a_line_is_skipped ("  " ++ String TAB ">> 42: ")
           "go infinite" eq_refl).
Defined.
